(** * Magic-Grid: a shallow embedding of [src/index.js]

    The class [MagicGrid] lays the children of a container element out in
    columns.  This development embeds its methods as Rocq functions and
    proves properties of the layout pass, of the readiness polling and of
    the resize handling.

    Conventions of the embedding.
    - Pixel measures ([getBoundingClientRect] widths and heights), the gutter
      and the column cap are integers ([Z]).  The only places where the
      source can leave the finite numbers are the division in [setup] and what
      is computed from its result; those values live in [JS.num], which adds
      the two infinities and NaN.
    - A method that reads and writes [this] and the DOM is a function from
      the state to a result [Res]: normal return, a raised exception (with the
      state at the time of the raise) or non-termination.
    - [this.styledItems] is a set of object references; an element's
      identity is its [ident].
    - A CSS length [n + "px"] is kept as [Px n], the string
      [translate(l, t)] as the pair of its two lengths. *)

From stdpp Require Import gmap strings list.

Local Open Scope Z_scope.

(** ** JavaScript numbers, as far as the layout needs them *)

Module JS.

Inductive num : Type :=
| Fin (z : Z)
| PInf
| NInf
| NaN.

Definition neg (a : num) : num :=
  match a with
  | Fin z => Fin (- z)
  | PInf => NInf
  | NInf => PInf
  | NaN => NaN
  end.

Definition add (a b : num) : num :=
  match a, b with
  | NaN, _ | _, NaN => NaN
  | Fin x, Fin y => Fin (x + y)
  | PInf, NInf | NInf, PInf => NaN
  | PInf, _ | _, PInf => PInf
  | NInf, _ | _, NInf => NInf
  end.

Definition sub (a b : num) : num := add a (neg b).

(** An infinity times a finite number. *)
Definition scale (inf : num) (x : Z) : num :=
  if x =? 0 then NaN else if 0 <? x then inf else neg inf.

Definition mul (a b : num) : num :=
  match a, b with
  | NaN, _ | _, NaN => NaN
  | Fin x, Fin y => Fin (x * y)
  | Fin x, inf => scale inf x
  | inf, Fin y => scale inf y
  | PInf, PInf | NInf, NInf => PInf
  | _, _ => NInf
  end.

(** [Math.floor(a / b)] on two integers: floor division, and the IEEE
    results of a division by zero. *)
Definition floor_div (a b : Z) : num :=
  if b =? 0 then
    if a =? 0 then NaN else if 0 <? a then PInf else NInf
  else Fin (a / b).

(** [Math.floor(a / 2)]. *)
Definition floor_half (a : num) : num :=
  match a with
  | Fin z => Fin (z / 2)
  | other => other
  end.

(** Truthiness of a number: [0] and [NaN] are falsy. *)
Definition truthy (a : num) : bool :=
  match a with
  | Fin z => negb (z =? 0)
  | NaN => false
  | _ => true
  end.

(** [a || b]. *)
Definition or_else (a b : num) : num := if truthy a then a else b.

(** [a > b]. *)
Definition gt (a b : num) : bool :=
  match a, b with
  | NaN, _ | _, NaN => false
  | Fin x, Fin y => y <? x
  | PInf, PInf => false
  | PInf, _ => true
  | Fin _, NInf => true
  | _, _ => false
  end.

End JS.

Import JS.

Global Arguments JS.add : simpl never.
Global Arguments JS.sub : simpl never.
Global Arguments JS.mul : simpl never.
Global Arguments JS.floor_half : simpl never.
Global Arguments JS.floor_div : simpl never.

(** ** The DOM as the grid sees it *)

(** [n + "px"]. *)
Inductive Length : Type :=
| Px (n : num).

(** The part of an item's [style] that the grid writes. *)
Record Style : Type := mkStyle {
  position : option string;
  top_ : option Length;
  left_ : option Length;
  transform : option (Length * Length);
  transition : option string
}.

(** A child element: its identity, its bounding rectangle and its style. *)
Record Item : Type := mkItem {
  ident : nat;
  rectWidth : Z;
  rectHeight : Z;
  style : Style
}.

(** The container element. *)
Record Container : Type := mkContainer {
  className : string;
  clientWidth : Z;
  children : list Item;
  containerPosition : option string;
  containerHeight : option Length
}.

(** ** The object *)

(** A reference to a DOM node. *)
Definition Ref := nat.

Record MagicGrid : Type := mkGrid {
  container : option Ref;
  containerClass : string;
  static : bool;
  size : option Z;
  gutter : Z;
  maxColumns : option Z;
  useMin : bool;
  useTransform : bool;
  animate : bool;
  center : bool;
  onReady : bool;
  styledItems : gset nat
}.

(** One entry of [cols]. *)
Record Column : Type := mkColumn {
  height : Z;
  index : Z
}.

(** ** Results of a method call *)

Inductive Exn : Type :=
| TypeError
| ConfigurationError.

Inductive Res (S A : Type) : Type :=
| Ret (a : A) (s : S)
| Raise (e : Exn) (s : S)
| Spin.

Arguments Ret {S A} a s.
Arguments Raise {S A} e s.
Arguments Spin {S A}.

Definition M (S A : Type) : Type := S → Res S A.

Definition ret {S A} (a : A) : M S A := fun s => Ret a s.
Definition raise {S A} (e : Exn) : M S A := fun s => Raise e s.
Definition spin {S A} : M S A := fun _ => Spin.

Definition bind {S A B} (m : M S A) (f : A → M S B) : M S B :=
  fun s =>
    match m s with
    | Ret a s' => f a s'
    | Raise e s' => Raise e s'
    | Spin => Spin
    end.

Global Instance M_ret {S} : MRet (M S) := fun A a => ret a.
Global Instance M_bind {S} : MBind (M S) := fun A B f m => bind m f.

(** ** State of a method call: [this] and the node [this.container]
    points to ([None] when [this.container] is [null]). *)

Record View : Type := mkView {
  obj : MagicGrid;
  cont : option Container
}.

Definition Meth (A : Type) : Type := M View A.

(** Dereference [this.container]; a [TypeError] on [null]. *)
Definition theContainer : Meth Container :=
  fun v =>
    match cont v with
    | Some c => Ret c v
    | None => Raise TypeError v
    end.

Definition this : Meth MagicGrid := fun v => Ret (obj v) v.

Definition setContainer (c : Container) : Meth unit :=
  fun v => Ret tt (mkView (obj v) (Some c)).

Definition withStyled (s : gset nat) (g : MagicGrid) : MagicGrid :=
  mkGrid (container g) (containerClass g) (static g) (size g) (gutter g)
         (maxColumns g) (useMin g) (useTransform g) (animate g) (center g)
         (onReady g) s.

Definition setStyledItems (s : gset nat) : Meth unit :=
  fun v => Ret tt (mkView (withStyled s (obj v)) (cont v)).

(** ** Methods of the layout engine *)

(** [items ()]: [this.container.children]. *)
Definition items : Meth (list Item) :=
  c ← theContainer; mret (children c).

(** [colWidth ()]: [this.items()[0].getBoundingClientRect().width +
    this.gutter]; reading the rectangle of [undefined] raises. *)
Definition colWidth : Meth Z :=
  its ← items ;
  g ← this ;
  match its with
  | first :: _ => mret (rectWidth first + gutter g)
  | [] => raise TypeError
  end.

(** The columns [{height: 0, index: i}] for [i = from .. from + n - 1]. *)
Fixpoint freshCols (from : Z) (n : nat) : list Column :=
  match n with
  | O => []
  | S n' => mkColumn 0 from :: freshCols (from + 1) n'
  end.

(** The number of columns [setup] settles on, before the columns are made.
    [this.maxColumns] is [false] ([None]) or a number; the test
    [this.maxColumns && numCols > this.maxColumns] also fails on [0]. *)
Definition numColsOf (g : MagicGrid) (width colW : Z) : num :=
  let numCols := or_else (floor_div (width + gutter g) colW) (Fin 1) in
  match maxColumns g with
  | Some m => if truthy (Fin m) && gt numCols (Fin m) then Fin m else numCols
  | None => numCols
  end.

(** [setup ()]. The loop [for (i = 0; i < numCols; i++)] does not end when
    [numCols] is [Infinity]. *)
Definition setup : Meth (list Column * num) :=
  c ← theContainer ;
  let width := clientWidth c in
  colW ← colWidth ;
  g ← this ;
  let numCols := numColsOf g width colW in
  let wSpace := add (sub (Fin width) (mul numCols (Fin colW))) (Fin (gutter g)) in
  match numCols with
  | Fin n => mret (freshCols 0 (Z.to_nat n), wSpace)
  | PInf => spin
  | NInf | NaN => mret ([], wSpace)
  end.

(** Modelled from the spec: [getMin] of [./utils], the minimum finder that
    [nextCol] calls under [useMin].  It returns the column with the strictly
    smallest current height, the first one in index order among equals.  The
    result is the column object itself, so it comes with its place in [cols];
    on no columns there is none ([undefined]). *)
Fixpoint getMinFrom (best : nat * Column) (k : nat) (cols : list Column)
  : nat * Column :=
  match cols with
  | [] => best
  | c :: rest =>
      getMinFrom (if height c <? height (snd best) then (k, c) else best)
                 (S k) rest
  end.

Definition getMin (cols : list Column) : option (nat * Column) :=
  match cols with
  | [] => None
  | c :: rest => Some (getMinFrom (O, c) 1%nat rest)
  end.

(** [nextCol (cols, i)]: the column object, with its place in [cols].
    [i % 0] is [NaN] and [cols[NaN]] is [undefined]. *)
Definition nextCol (g : MagicGrid) (cols : list Column) (i : nat)
  : option (nat * Column) :=
  if useMin g then getMin cols
  else
    match length cols with
    | O => None
    | S _ =>
        let k := (i mod length cols)%nat in
        col ← cols !! k; Some (k, col)
    end.

(** [ready ()]. A comparison with [undefined] is false. *)
Definition ready : Meth bool :=
  g ← this;
  if static g then mret true
  else
    its ← items;
    mret (match size g with
          | Some n => bool_decide (n ≤ Z.of_nat (length its))
          | None => false
          end).

Definition withPosition (p : string) (st : Style) : Style :=
  mkStyle (Some p) (top_ st) (left_ st) (transform st) (transition st).

Definition withTransition (t : string) (st : Style) : Style :=
  mkStyle (position st) (top_ st) (left_ st) (transform st) (Some t).

Definition withStyle (st : Style) (it : Item) : Item :=
  mkItem (ident it) (rectWidth it) (rectHeight it) st.

(** The body of the loop of [initStyles] on one item not yet styled. *)
Definition baseStyle (g : MagicGrid) (it : Item) : Item :=
  let st := withPosition "absolute" (style it) in
  let st :=
    if animate g then
      withTransition
        ((if useTransform g then "transform" else "top, left") +:+ " 0.2s ease")
        st
    else st in
  withStyle st it.

(** The loop of [initStyles]: the items and [this.styledItems] after it. *)
Fixpoint styleItems (g : MagicGrid) (its : list Item) (styled : gset nat)
  : list Item * gset nat :=
  match its with
  | [] => ([], styled)
  | it :: rest =>
      if bool_decide (ident it ∈ styled) then
        let r := styleItems g rest styled in (it :: r.1, r.2)
      else
        let r := styleItems g rest (styled ∪ {[ident it]}) in
        (baseStyle g it :: r.1, r.2)
  end.

Definition withChildren (its : list Item) (c : Container) : Container :=
  mkContainer (className c) (clientWidth c) its
              (containerPosition c) (containerHeight c).

Definition withContainerPosition (p : string) (c : Container) : Container :=
  mkContainer (className c) (clientWidth c) (children c)
              (Some p) (containerHeight c).

Definition withContainerHeight (h : Length) (c : Container) : Container :=
  mkContainer (className c) (clientWidth c) (children c)
              (containerPosition c) (Some h).

(** [initStyles ()]. *)
Definition initStyles : Meth unit :=
  r ← ready;
  if negb r then mret tt
  else
    c ← theContainer;
    setContainer (withContainerPosition "relative" c);;
    its ← items;
    g ← this;
    let r := styleItems g its (styledItems g) in
    c ← theContainer;
    setContainer (withChildren r.1 c);;
    setStyledItems r.2.

(** What one turn of the loop of [positionItems] computed in its local
    variables; kept beside the state so that properties of the loop can be
    stated. *)
Record Placement : Type := mkPlacement {
  itemIndex : nat;
  colIndex : nat;
  heightBefore : Z;
  topGutter : Z;
  leftPx : num;
  topPx : Z;
  itemHeight : Z
}.

(** The outcome of the loop: the items as styled, the placements made, the
    columns and [maxHeight] at its end, and the exception that ended it
    early, if any. *)
Record Placed : Type := mkPlaced {
  placedItems : list Item;
  plan : list Placement;
  finalCols : list Column;
  finalMax : Z;
  failure : option Exn
}.

(** The writes to [item.style] of one turn. *)
Definition setPosition (g : MagicGrid) (left : num) (top : Z) (it : Item)
  : Item :=
  let st := style it in
  withStyle
    (if useTransform g then
       mkStyle (position st) (top_ st) (left_ st)
               (Some (Px left, Px (Fin top))) (transition st)
     else
       mkStyle (position st) (Some (Px (Fin top))) (Some (Px left))
               (transform st) (transition st))
    it.

(** The loop [for (i = 0; i < items.length; i++)] of [positionItems], from
    index [i] on.  [col.height] of [undefined] raises. *)
Fixpoint placeItems (g : MagicGrid) (colW : Z) (wSpace : num) (i : nat)
    (its : list Item) (cols : list Column) (maxHeight : Z) : Placed :=
  match its with
  | [] => mkPlaced [] [] cols maxHeight None
  | item :: rest =>
      match nextCol g cols i with
      | None => mkPlaced its [] cols maxHeight (Some TypeError)
      | Some (k, col) =>
          let topGutter := if height col =? 0 then 0 else gutter g in
          let left := add (Fin (index col * colW)) wSpace in
          let top := height col + topGutter in
          let height' := height col + (rectHeight item + topGutter) in
          let maxHeight' :=
            if maxHeight <? height' then height' else maxHeight in
          let r := placeItems g colW wSpace (S i) rest
                     (<[k := mkColumn height' (index col)]> cols) maxHeight' in
          mkPlaced (setPosition g left top item :: placedItems r)
                   (mkPlacement i k (height col) topGutter left top
                                (rectHeight item) :: plan r)
                   (finalCols r) (finalMax r) (failure r)
      end
  end.

(** [positionItems ()], returning what its loop computed.  [items] is a live
    collection: the loop sees the elements as [initStyles] left them. *)
Definition layoutPass : Meth Placed :=
  s ← setup;
  colW ← colWidth;
  g ← this;
  let wSpace := if center g then floor_half s.2 else Fin 0 in
  initStyles;;
  its ← items;
  let r := placeItems g colW wSpace 0 its s.1 0 in
  c ← theContainer;
  setContainer (withChildren (placedItems r) c);;
  match failure r with
  | Some e => raise e
  | None =>
      c ← theContainer;
      setContainer (withContainerHeight (Px (Fin (finalMax r + gutter g))) c);;
      mret r
  end.

(** [positionItems ()]. *)
Definition positionItems : Meth unit :=
  layoutPass;; mret tt.

(** ** The host: document, timers and the resize event *)

(** The arrow functions handed to the host, with what they close over:
    the callback of [setInterval] in [getReady] (it knows its own handle),
    and the callback of [setTimeout] in [listen] together with the listener
    that sets it, which share the variable [timeout] of that call of
    [listen]; the variable is named by its place in [cells]. *)
Inductive Task : Type :=
| PollTick
| Relayout (cell : nat).

Record Timer : Type := mkTimer {
  handle : nat;
  due : Z;
  every : option Z;
  task : Task
}.

(** What the journal records: a call of [positionItems] that returned or
    raised, a call of [onReady], an exception no one caught. *)
Inductive Note : Type :=
| LayoutDone
| LayoutRaised (e : Exn)
| ReadyCalled
| Uncaught (e : Exn).

Record World : Type := mkWorld {
  nodes : gmap Ref Container;
  querySelector : string → option Ref;
  grid : MagicGrid;
  now : Z;
  timers : list Timer;
  nextHandle : nat;
  listeners : list nat;
  cells : list (option nat);
  journal : list (Z * Note)
}.

Definition Host (A : Type) : Type := M World A.

Definition withNodes (n : gmap Ref Container) (w : World) : World :=
  mkWorld n (querySelector w) (grid w) (now w) (timers w) (nextHandle w)
          (listeners w) (cells w) (journal w).

Definition withGrid (g : MagicGrid) (w : World) : World :=
  mkWorld (nodes w) (querySelector w) g (now w) (timers w) (nextHandle w)
          (listeners w) (cells w) (journal w).

Definition withNow (t : Z) (w : World) : World :=
  mkWorld (nodes w) (querySelector w) (grid w) t (timers w) (nextHandle w)
          (listeners w) (cells w) (journal w).

Definition withTimers (ts : list Timer) (w : World) : World :=
  mkWorld (nodes w) (querySelector w) (grid w) (now w) ts (nextHandle w)
          (listeners w) (cells w) (journal w).

Definition withNextHandle (h : nat) (w : World) : World :=
  mkWorld (nodes w) (querySelector w) (grid w) (now w) (timers w) h
          (listeners w) (cells w) (journal w).

Definition withListeners (ls : list nat) (w : World) : World :=
  mkWorld (nodes w) (querySelector w) (grid w) (now w) (timers w)
          (nextHandle w) ls (cells w) (journal w).

Definition withCells (cs : list (option nat)) (w : World) : World :=
  mkWorld (nodes w) (querySelector w) (grid w) (now w) (timers w)
          (nextHandle w) (listeners w) cs (journal w).

Definition withJournal (j : list (Z * Note)) (w : World) : World :=
  mkWorld (nodes w) (querySelector w) (grid w) (now w) (timers w)
          (nextHandle w) (listeners w) (cells w) j.

Definition world : Host World := fun w => Ret w w.

Definition modify (f : World → World) : Host unit := fun w => Ret tt (f w).

Definition note (n : Note) : Host unit :=
  modify (fun w => withJournal (journal w ++ [(now w, n)]) w).

(** The state a method of the object runs in, and the world after it. *)
Definition view (w : World) : View :=
  mkView (grid w) (r ← container (grid w); nodes w !! r).

Definition commit (v : View) (w : World) : World :=
  let w := withGrid (obj v) w in
  match container (grid w), cont v with
  | Some r, Some c => withNodes (<[r := c]> (nodes w)) w
  | _, _ => w
  end.

Definition lift {A} (m : Meth A) : Host A :=
  fun w =>
    match m (view w) with
    | Ret a v => Ret a (commit v w)
    | Raise e v => Raise e (commit v w)
    | Spin => Spin
    end.

(** [positionItems ()] in the world, with its entry in the journal. *)
Definition positionItemsW : Host unit :=
  fun w =>
    match lift positionItems w with
    | Ret _ w' => note LayoutDone w'
    | Raise e w' => Raise e (withJournal (journal w' ++ [(now w', LayoutRaised e)]) w')
    | Spin => Spin
    end.

(** [setInterval (f, ms)] and [setTimeout (f, ms)]: a fresh handle. *)
Definition schedule (every : option Z) (ms : Z) (f : Task) : Host nat :=
  fun w =>
    let h := nextHandle w in
    Ret h (withNextHandle (S h)
             (withTimers (timers w ++ [mkTimer h (now w + ms) every f]) w)).

(** [clearInterval (h)]. *)
Definition clearTimer (h : nat) : Host unit :=
  modify (fun w =>
    withTimers (filter (fun t => handle t ≠ h) (timers w)) w).

(** [getReady ()]. *)
Definition getReady : Host unit :=
  schedule (Some 100) 100 PollTick;; mret tt.

(** [let timeout;]: a new variable, [undefined] at first. *)
Definition newCell : Host nat :=
  fun w => Ret (length (cells w)) (withCells (cells w ++ [None]) w).

(** [window.addEventListener ("resize", ...)]. *)
Definition addResizeListener (cell : nat) : Host unit :=
  modify (fun w => withListeners (listeners w ++ [cell]) w).

(** [this.onReady && this.onReady ()]. *)
Definition callOnReady : Host unit :=
  fun w => if onReady (grid w) then note ReadyCalled w else Ret tt w.

(** [listen ()]. *)
Definition listen : Host unit :=
  r ← lift ready;
  if (r : bool) then
    cell ← newCell;
    addResizeListener cell;;
    positionItemsW;;
    callOnReady
  else getReady.

Definition withContainerRef (r : option Ref) (g : MagicGrid) : MagicGrid :=
  mkGrid r (containerClass g) (static g) (size g) (gutter g) (maxColumns g)
         (useMin g) (useTransform g) (animate g) (center g) (onReady g)
         (styledItems g).

(** The callback of [setInterval] in [getReady]; [h] is [interval]. *)
Definition pollTick (h : nat) : Host unit :=
  modify (fun w =>
    withGrid (withContainerRef (querySelector w (containerClass (grid w)))
                               (grid w)) w);;
  r ← lift ready;
  if (r : bool) then clearTimer h;; listen else mret tt.

Definition setCell (cell : nat) (x : option nat) : Host unit :=
  modify (fun w => withCells (<[cell := x]> (cells w)) w).

(** The callback of [setTimeout] in [listen]. *)
Definition relayout (cell : nat) : Host unit :=
  positionItemsW;; setCell cell None.

(** The resize listener of [listen].  A timer handle is a positive number,
    hence truthy. *)
Definition onResize (cell : nat) : Host unit :=
  fun w =>
    match cells w !! cell with
    | Some (Some _) => Ret tt w
    | _ => (h ← schedule None 200 (Relayout cell); setCell cell (Some h)) w
    end.

(** An exception that leaves a callback is reported by the host and the
    event loop goes on. *)
Definition guarded (m : Host unit) : Host unit :=
  fun w =>
    match m w with
    | Raise e w' => note (Uncaught e) w'
    | other => other
    end.

Definition runTask (t : Timer) : Host unit :=
  match task t with
  | PollTick => pollTick (handle t)
  | Relayout cell => relayout cell
  end.

(** After a timer has come due: a timeout is gone, an interval is armed
    again. *)
Definition rearm (t : Timer) (ts : list Timer) : list Timer :=
  match every t with
  | Some p =>
      (fun x => if bool_decide (handle x = handle t)
                then mkTimer (handle x) (due x + p) (every x) (task x)
                else x) <$> ts
  | None => filter (fun x => handle x ≠ handle t) ts
  end.

(** The host runs the callback of timer [t] at the time it is due. *)
Definition fire (t : Timer) : Host unit :=
  modify (fun w => withTimers (rearm t (timers w)) (withNow (due t) w));;
  guarded (runTask t).

(** The first of the timers that are due soonest. *)
Fixpoint earliest (ts : list Timer) : option Timer :=
  match ts with
  | [] => None
  | x :: rest =>
      match earliest rest with
      | Some y => if due y <? due x then Some y else Some x
      | None => Some x
      end
  end.

Definition nextDue (t : Z) (ts : list Timer) : option Timer :=
  earliest (filter (fun x => due x ≤ t) ts).

(** A run of the event loop: [None] when the fuel of the model ran out. *)
Definition Run : Type := option (Res World unit).

Definition andThen (r : Run) (k : World → Run) : Run :=
  match r with
  | Some (Ret _ w) => k w
  | other => other
  end.

(** Let time pass until [t]: the timers due by then fire in order. *)
Fixpoint advance (fuel : nat) (t : Z) (w : World) : Run :=
  match nextDue t (timers w) with
  | None => Some (Ret tt (withNow t w))
  | Some x =>
      match fuel with
      | O => None
      | S fuel' =>
          match fire x w with
          | Ret _ w' => advance fuel' t w'
          | other => Some other
          end
      end
  end.

(** The window fires [resize]: the listeners run in the order they were
    added. *)
Fixpoint dispatch (ls : list nat) : Host unit :=
  match ls with
  | [] => mret tt
  | cell :: rest => guarded (onResize cell);; dispatch rest
  end.

Definition resize : Host unit := fun w => dispatch (listeners w) w.

(** A resize notification at time [t]. *)
Definition resizeAt (fuel : nat) (t : Z) (w : World) : Run :=
  andThen (advance fuel t w) (fun w' => Some (resize w')).

(** Resize notifications at the times [ts], one after the other. *)
Fixpoint burst (fuel : nat) (ts : list Z) (w : World) : Run :=
  match ts with
  | [] => Some (Ret tt w)
  | t :: rest => andThen (resizeAt fuel t w) (burst fuel rest)
  end.

(** The times at which the journal has a call of [positionItems]. *)
Definition isLayout (n : Note) : bool :=
  match n with
  | LayoutDone | LayoutRaised _ => true
  | _ => false
  end.

Definition layouts (j : list (Z * Note)) : list Z :=
  fst <$> filter (fun e => isLayout e.2 = true) j.

(** ** Construction *)

Inductive ContainerArg : Type :=
| Element (r : Ref)
| Selector (s : string).

(** The configuration object; [None] is a property left out. *)
Module Config.
Record t : Type := mk {
  container : option ContainerArg;
  static : bool;
  items : option Z;
  gutter : option Z;
  maxColumns : option Z;
  useMin : bool;
  useTransform : bool;
  animate : bool;
  center : bool;
  onReady : bool
}.
End Config.

(** Modelled from the spec: [checkParams] of [./utils], the validation of
    the configuration.  It fails with a [ConfigurationError] if a required
    field, the container reference or the gutter, is missing. *)
Definition checkParams (config : Config.t) : Host unit :=
  match Config.container config, Config.gutter config with
  | Some _, Some _ => mret tt
  | _, _ => raise ConfigurationError
  end.

(** [x || false] on a number. *)
Definition orFalse (x : option Z) : option Z :=
  match x with
  | Some z => if truthy (Fin z) then Some z else None
  | None => None
  end.

(** [constructor (config)]: the assignments to the fields of [this], then
    [initStyles].  After [checkParams] the container and the gutter are
    there, so the defaults below are never taken; [className] of a reference
    that names no node does not arise either and reads as the empty string. *)
Definition constructor (config : Config.t) : Host unit :=
  checkParams config;;
  w ← world;
  let target :=
    match Config.container config with
    | Some (Element r) =>
        (Some r, default "" (className <$> nodes w !! r))
    | Some (Selector s) => (querySelector w s, s)
    | None => (None, "")
    end in
  modify (withGrid
    (mkGrid target.1 target.2 (Config.static config) (Config.items config)
            (default 0 (Config.gutter config))
            (orFalse (Config.maxColumns config)) (Config.useMin config)
            (Config.useTransform config) (Config.animate config)
            (Config.center config) (Config.onReady config) ∅));;
  lift initStyles.

(** The object before its constructor has run, and a page on which nothing
    has been scheduled yet. *)
Definition blank : MagicGrid :=
  mkGrid None "" false None 0 None false false false false false ∅.

Definition page (n : gmap Ref Container) (q : string → option Ref) : World :=
  mkWorld n q blank 0 [] 1%nat [] [] [].

(** * Definitions used to state the properties *)

Definition plain : Style := mkStyle None None None None None.

Definition box (n : nat) (w h : Z) : Item := mkItem n w h plain.

(** Gutter 10, round-robin, no column cap; the other flags are free. *)
Definition scenarioGrid (static useTransform animate center onReady : bool)
  : MagicGrid :=
  mkGrid (Some O) ".grid" static (Some 5) 10 None false useTransform animate
         center onReady ∅.

(** A container 300 wide with five items 90 wide. *)
Definition scenarioContainer : Container :=
  mkContainer "grid" 300
    [box 0 90 50; box 1 90 80; box 2 90 30; box 3 90 60; box 4 90 40]
    None None.

(** Two items in a container 300 wide, at most two columns. *)
Definition cappedGrid : MagicGrid :=
  mkGrid (Some O) ".grid" false (Some 2) 10 (Some 2) false false false false
         false ∅.

Definition twoBoxes : Container :=
  mkContainer "grid" 300 [box 0 90 50; box 1 90 80] None None.

(** One item 60 wide in a container 20 wide, with gutter -50. *)
Definition negativeGutter : View :=
  mkView (mkGrid (Some O) ".grid" true None (-50) None false false false
                 false false ∅)
         (Some (mkContainer "grid" 20 [box 0 60 40] None None)).

(** [ready ()] on a container that is there. *)
Definition isReady (g : MagicGrid) (c : Container) : bool :=
  if static g then true
  else match size g with
       | Some n => bool_decide (n ≤ Z.of_nat (length (children c)))
       | None => false
       end.

(** The state [initStyles] leaves. *)
Definition styledView (g : MagicGrid) (c : Container) : View :=
  if isReady g c then
    let r := styleItems g (children c) (styledItems g) in
    mkView (withStyled r.2 g)
           (Some (withChildren r.1 (withContainerPosition "relative" c)))
  else mkView g (Some c).

(** The columns [setup] makes for a count. *)
Definition colsFor (numCols : num) : list Column :=
  match numCols with
  | Fin n => freshCols 0 (Z.to_nat n)
  | _ => []
  end.

Definition wSpaceOf (g : MagicGrid) (width colW : Z) : num :=
  add (sub (Fin width) (mul (numColsOf g width colW) (Fin colW)))
      (Fin (gutter g)).

(** The offset the loop adds to every [left]. *)
Definition centerOffset (g : MagicGrid) (width colW : Z) : num :=
  if center g then floor_half (wSpaceOf g width colW) else Fin 0.

(** The loop of the pass on a container that has a first item: its columns,
    its offset and the items it runs over. *)
Definition passLoop (g : MagicGrid) (c : Container) (first : Item) : Placed :=
  let colW := rectWidth first + gutter g in
  placeItems g colW (centerOffset g (clientWidth c) colW) 0
    (default [] (children <$> cont (styledView g c)))
    (colsFor (numColsOf g (clientWidth c) colW)) 0.

(** The state after the loop. *)
Definition passView (g : MagicGrid) (c : Container) (r : Placed) : View :=
  let v := styledView g c in
  let c' := withChildren (placedItems r) (default c (cont v)) in
  mkView (obj v)
    (Some (match failure r with
           | Some _ => c'
           | None => withContainerHeight (Px (Fin (finalMax r + gutter g))) c'
           end)).

(** What a placement adds to the height of its column. *)
Definition growth (q : Placement) : Z := itemHeight q + topGutter q.

Definition total (l : list Z) : Z := foldr Z.add 0 l.

(** The placements of a list that went into column [k]. *)
Definition inColumn (k : nat) (ps : list Placement) : list Placement :=
  filter (fun q => colIndex q = k) ps.

(** A plan in which every column height is the sum of what was put into the
    column before, and the gutter above an item is decided by that height. *)
Definition wellStacked (gut : Z) (ps : list Placement) : Prop :=
  ∀ pre p post, ps = pre ++ p :: post →
    heightBefore p = total (growth <$> inColumn (colIndex p) pre) ∧
    topGutter p = (if heightBefore p =? 0 then 0 else gut).

(** Four items 90 wide in a container 300 wide; the first has height 0. *)
Definition flatFirst : View :=
  mkView (mkGrid (Some O) ".grid" false (Some 4) 10 None false false false
                 false false ∅)
         (Some (mkContainer "grid" 300
                  [box 0 90 0; box 1 90 50; box 2 90 50; box 3 90 40]
                  None None)).

(** C3, as the claim has it: the gutter above an item is 0 exactly when no
    item was placed into its column before it. *)
Definition gutterIffFirst (ps : list Placement) : Prop :=
  ∀ pre p post, ps = pre ++ p :: post →
    (topGutter p = 0 ↔ inColumn (colIndex p) pre = []).

Definition emptyContainer : Container := mkContainer "grid" 300 [] None None.

Definition emptyView : View :=
  mkView (mkGrid (Some O) ".grid" true None 10 None false false false false
                 false ∅)
         (Some emptyContainer).

(** One item 90 wide in a container 50 wide, centering enabled. *)
Definition narrow : View :=
  mkView (mkGrid (Some O) ".grid" true None 10 None false false false true
                 false ∅)
         (Some (mkContainer "grid" 50 [box 0 90 40] None None)).

(** Two lists of items that differ in styles at most. *)
Definition sameMeasures : list Item → list Item → Prop :=
  Forall2 (fun a b => ident a = ident b ∧ rectWidth a = rectWidth b ∧
                      rectHeight a = rectHeight b).

(** A method run again on the state its first run left. *)
Definition again {A} (m : Meth A) (res : Res View A) : Res View A :=
  match res with
  | Ret _ v' | Raise _ v' => m v'
  | Spin => Spin
  end.

Definition withWidth (w : Z) (it : Item) : Item :=
  mkItem (ident it) w (rectHeight it) (style it).

(** The items with other measured widths, taken from a list in order. *)
Fixpoint reWidth (ws : list Z) (its : list Item) : list Item :=
  match ws, its with
  | w :: ws', it :: its' => withWidth w it :: reWidth ws' its'
  | _, _ => its
  end.

(** Other widths for the items after the first. *)
Definition reTail (ws : list Z) (its : list Item) : list Item :=
  match its with
  | first :: rest => first :: reWidth ws rest
  | [] => []
  end.

Definition reTailC (ws : list Z) (c : Container) : Container :=
  withChildren (reTail ws (children c)) c.

Definition reTailV (ws : list Z) (v : View) : View :=
  mkView (obj v) (reTailC ws <$> cont v).

Definition reTailP (ws : list Z) (r : Placed) : Placed :=
  mkPlaced (reTail ws (placedItems r)) (plan r) (finalCols r) (finalMax r)
           (failure r).

Definition mapRes {S A} (f : A → A) (h : S → S) (res : Res S A) : Res S A :=
  match res with
  | Ret a s => Ret (f a) (h s)
  | Raise e s => Raise e (h s)
  | Spin => Spin
  end.

(** A method of the object touches the object and its container only. *)
Definition sameHost (w w' : World) : Prop :=
  now w' = now w ∧ timers w' = timers w ∧ nextHandle w' = nextHandle w ∧
  listeners w' = listeners w ∧ cells w' = cells w ∧ journal w' = journal w ∧
  querySelector w' = querySelector w.

(** A page whose container has two of five items; [querySelector] knows
    the selector [.grid] only. *)
Definition twoOfFive : gmap Ref Container :=
  {[ O := mkContainer "grid" 300 [box 0 90 50; box 1 90 80] None None ]}.

Definition byClass (s : string) : option Ref :=
  if String.eqb s ".grid" then Some O else None.

(** The container is handed over as an element: [containerClass] becomes
    its class name [grid], which as a selector matches nothing. *)
Definition elementConfig : Config.t :=
  Config.mk (Some (Element O)) false (Some 5) (Some 10) None false false false
            false false.

(** The world after construction and a call of [listen]: the object polls. *)
Definition pollingWorld : World :=
  mkWorld twoOfFive byClass
          (mkGrid (Some O) "grid" false (Some 5) 10 None false false false
                  false false ∅)
          0 [mkTimer 1 100 (Some 100) PollTick] 2 [] [] [].

(** The world in which [listen] runs its first pass: the variable [timeout]
    is there and the resize listener is registered. *)
Definition listening (w : World) : World :=
  withListeners (listeners w ++ [length (cells w)])
                (withCells (cells w ++ [None]) w).

(** The world in which the tick of timer [t] calls [ready]: the clock is at
    the due time, the interval is armed again, and [this.container] is what
    the selector found. *)
Definition ticking (t : Timer) (r : option Ref) (w : World) : World :=
  withGrid (withContainerRef r (grid w))
           (withTimers (rearm t (timers w)) (withNow (due t) w)).

(** A page whose container is complete, configured by selector. *)
Definition readyConfig : Config.t :=
  Config.mk (Some (Selector ".grid")) false (Some 2) (Some 10) None false
            false false false true.

(** A page that waits for five items; the last three arrive after 250ms. *)
Definition waitingConfig : Config.t :=
  Config.mk (Some (Selector ".grid")) false (Some 5) (Some 10) None false
            false false false true.

Definition arrive (w : World) : World :=
  withNodes {[ O := scenarioContainer ]} w.

(** The world after the first notification of a burst, at time [t1]: one
    timeout is pending, due 200ms later, and [timeout] holds its handle. *)
Definition armed (cell : nat) (t1 : Z) (w : World) : World :=
  withCells (<[cell := Some (nextHandle w)]> (cells w))
    (withNextHandle (S (nextHandle w))
       (withTimers [mkTimer (nextHandle w) (t1 + 200) None (Relayout cell)]
          (withNow t1 w))).

(** The page of [listen_after_construction] after [listen]: one listener,
    no timeout pending, the first pass in the journal at time 0. *)
Definition listeningWorld : World :=
  match (constructor readyConfig;; listen) (page twoOfFive byClass) with
  | Ret _ w | Raise _ w => w
  | Spin => page twoOfFive byClass
  end.

(** The scenario with every flag off, and what its pass returns. *)
Definition scenarioView : View :=
  mkView (scenarioGrid false false false false false) (Some scenarioContainer).

Definition scenarioResult : Placed :=
  match layoutPass scenarioView with
  | Ret r _ => r
  | _ => mkPlaced [] [] [] 0 None
  end.

Definition scenarioAfter : View :=
  match layoutPass scenarioView with
  | Ret _ v | Raise _ v => v
  | Spin => scenarioView
  end.

(** The height of the tallest column, 0 when there is none. *)
Definition tallest (cols : list Column) : Z :=
  foldr Z.max 0 (height <$> cols).


(** What [initStyles] leaves of an item's style alone. *)
Definition samePlace (a b : Item) : Prop :=
  top_ (style a) = top_ (style b) ∧ left_ (style a) = left_ (style b) ∧
  transform (style a) = transform (style b).

(** What the loop of [positionItems] leaves of an item's style alone. *)
Definition sameBase (a b : Item) : Prop :=
  position (style a) = position (style b) ∧
  transition (style a) = transition (style b).

(** Two items 90 wide, gutter 10 and a cap of -1: [setup] makes no
    column. *)
Definition negativeCap : View :=
  mkView (mkGrid (Some O) ".grid" true None 10 (Some (-1)) false false false
                 false false ∅)
         (Some (mkContainer "grid" 300 [box 0 90 40; box 1 90 50] None None)).

(** An item without width and no gutter: the column width is 0. *)
Definition zeroWidth : View :=
  mkView (mkGrid (Some O) ".grid" true None 0 None false false false false
                 false ∅)
         (Some (mkContainer "grid" 300 [box 0 0 40] None None)).

(** A world in which the timeout of a resize listener is pending and the
    host has emptied the container in the meantime. *)
Definition emptiedWorld : World :=
  match resizeAt 1 10 listeningWorld with
  | Some (Ret _ w) => withNodes {[ O := emptyContainer ]} w
  | _ => listeningWorld
  end.

(** The same without the host's change. *)
Definition pendingWorld : World :=
  match resizeAt 1 10 listeningWorld with
  | Some (Ret _ w) => w
  | _ => listeningWorld
  end.

(** A configuration whose selector matches nothing on the page. *)
Definition strayConfig : Config.t :=
  Config.mk (Some (Selector "#missing")) true None (Some 10) None false false
            false false false.

(** The world right after construction on the complete page. *)
Definition constructedWorld : World :=
  match constructor readyConfig (page twoOfFive byClass) with
  | Ret _ w | Raise _ w => w
  | Spin => page twoOfFive byClass
  end.

(** * Properties *)

(** Unfolds the plumbing of the method monad. *)
Ltac run :=
  cbv beta iota zeta delta
    [mbind mret M_bind M_ret bind ret raise spin this theContainer
     setContainer setStyledItems items world modify obj cont fst snd].

(** ** The column setup *)

Lemma length_freshCols n from : length (freshCols from n) = n.
Proof. revert from; induction n as [|n IH]; intros from; simpl; [done|]. by rewrite IH. Qed.

Lemma lookup_freshCols n from k :
  (k < n)%nat → freshCols from n !! k = Some (mkColumn 0 (from + Z.of_nat k)).
Proof.
  revert from k; induction n as [|n IH]; intros from k Hk; [lia|].
  destruct k as [|k]; simpl.
  - by rewrite Z.add_0_r.
  - rewrite IH by lia. do 2 f_equal. lia.
Qed.

Lemma colWidth_first g c first rest :
  children c = first :: rest →
  colWidth (mkView g (Some c))
  = Ret (rectWidth first + gutter g) (mkView g (Some c)).
Proof. intros Hc. unfold colWidth. run. by rewrite Hc. Qed.

Lemma colWidth_no_items g c :
  children c = [] →
  colWidth (mkView g (Some c)) = Raise TypeError (mkView g (Some c)).
Proof. intros Hc. unfold colWidth. run. by rewrite Hc. Qed.

(** The count of columns for a positive column width: a finite number, at
    most the cap if there is one, and at least 1 when width plus gutter is
    not negative and the cap, if there is one, is at least 1. *)
Lemma numColsOf_positive_width g width colW :
  0 < colW →
  ∃ n, numColsOf g width colW = Fin n ∧
       (∀ m, maxColumns g = Some m → m ≠ 0 → n ≤ m) ∧
       (0 ≤ width + gutter g → (∀ m, maxColumns g = Some m → 1 ≤ m) → 1 ≤ n).
Proof.
  intros Hc. unfold numColsOf, floor_div, or_else.
  assert ((colW =? 0) = false) as -> by lia.
  pose proof (Z.div_pos (width + gutter g) colW) as Hpos.
  set (q := (width + gutter g) / colW) in *. cbn [truthy].
  destruct (Z.eqb_spec q 0) as [Hq0|Hq0]; cbn [negb];
    destruct (maxColumns g) as [m|] eqn:Em.
  - destruct (Z.eqb_spec m 0) as [Hm0|Hm0]; cbn [negb andb gt].
    + exists 1. split; [done|]. split; [by intros ? [= <-]|lia].
    + destruct (Z.ltb_spec m 1).
      * exists m. split; [done|]. split; [intros ? [= <-]; lia|].
        intros _ Hm. by apply Hm.
      * exists 1. split; [done|]. split; [intros ? [= <-]; lia|lia].
  - exists 1. split; [done|]. split; [by intros ? [=]|lia].
  - destruct (Z.eqb_spec m 0) as [Hm0|Hm0]; cbn [negb andb gt].
    + exists q. split; [done|]. split; [by intros ? [= <-]|].
      intros Hw _. specialize (Hpos Hw Hc). lia.
    + destruct (Z.ltb_spec m q).
      * exists m. split; [done|]. split; [intros ? [= <-]; lia|].
        intros _ Hm. by apply Hm.
      * exists q. split; [done|]. split; [intros ? [= <-]; lia|].
        intros Hw _. specialize (Hpos Hw Hc). lia.
  - exists q. split; [done|]. split; [by intros ? [=]|].
    intros Hw _. specialize (Hpos Hw Hc). lia.
Qed.

(** C2, as the code has it. For a positive column width [setup] settles on
    a finite count and makes that many columns (none when the count is
    negative); when a maximum column count is configured the count is at most
    that maximum; and the count is at least 1 when container width plus
    gutter is not negative (so for a non-negative width and gutter) and the
    configured maximum, if any, is at least 1. *)
Theorem setup_column_count g c first rest :
  children c = first :: rest →
  0 < rectWidth first + gutter g →
  ∃ n wSpace,
    numColsOf g (clientWidth c) (rectWidth first + gutter g) = Fin n ∧
    setup (mkView g (Some c))
    = Ret (freshCols 0 (Z.to_nat n), wSpace) (mkView g (Some c)) ∧
    (∀ m, maxColumns g = Some m → m ≠ 0 → n ≤ m) ∧
    (0 ≤ clientWidth c + gutter g →
     (∀ m, maxColumns g = Some m → 1 ≤ m) →
     1 ≤ n ∧ Z.of_nat (length (freshCols 0 (Z.to_nat n))) = n).
Proof.
  intros Hc Hcw.
  destruct (numColsOf_positive_width g (clientWidth c) _ Hcw)
    as (n & En & Hcap & Hmin).
  exists n. eexists. split; [exact En|]. split.
  { unfold setup. run. rewrite (colWidth_first _ _ _ _ Hc). run.
    rewrite En. reflexivity. }
  split; [exact Hcap|]. intros Hw Hm. specialize (Hmin Hw Hm).
  split; [done|]. rewrite length_freshCols. lia.
Qed.

Lemma setup_column_count_witness :
  ∃ n wSpace,
    numColsOf cappedGrid 300 (90 + 10) = Fin n ∧
    setup (mkView cappedGrid (Some twoBoxes))
    = Ret (freshCols 0 (Z.to_nat n), wSpace)
          (mkView cappedGrid (Some twoBoxes)) ∧
    (∀ m, Some 2 = Some m → m ≠ 0 → n ≤ m) ∧
    (0 ≤ 300 + 10 → (∀ m, Some 2 = Some m → 1 ≤ m) →
     1 ≤ n ∧ Z.of_nat (length (freshCols 0 (Z.to_nat n))) = n).
Proof.
  apply (setup_column_count cappedGrid twoBoxes (box 0 90 50) [box 1 90 80]).
  - reflexivity.
  - simpl. lia.
Defined.

(** With gutter -50, an item 60 wide and a container 20 wide the column
    width is 10, the quotient is -3, and [setup] makes no column. *)
Lemma negative_gutter_no_column :
  0 < 60 + gutter (obj negativeGutter) ∧
  numColsOf (obj negativeGutter) 20 (60 + -50) = Fin (-3) ∧
  ∃ wSpace, setup negativeGutter = Ret ([], wSpace) negativeGutter.
Proof.
  split; [done|]. split; [reflexivity|]. eexists. vm_compute. reflexivity.
Qed.

(** ** The scenario of the specification *)

(** C1. On a container of width 300 with five items of width 90 and heights
    50, 80, 30, 60, 40, with gutter 10 and round-robin selection, the column
    width is 100, [setup] makes 3 columns, the pass puts the items into
    columns 0, 1, 2, 0, 1, the columns end with heights 120, 130, 30 and the
    container height is set to 140px. *)
Theorem scenario_round_robin (st ut an ce onr : bool) :
  let v := mkView (scenarioGrid st ut an ce onr) (Some scenarioContainer) in
  colWidth v = Ret 100 v ∧
  numColsOf (obj v) 300 100 = Fin 3 ∧
  (∃ wSpace, setup v = Ret (freshCols 0 3, wSpace) v) ∧
  ∃ r v',
    layoutPass v = Ret r v' ∧
    positionItems v = Ret tt v' ∧
    colIndex <$> plan r = [0; 1; 2; 0; 1]%nat ∧
    height <$> finalCols r = [120; 130; 30] ∧
    containerHeight <$> cont v' = Some (Some (Px (Fin 140))).
Proof.
  intros v. subst v.
  split; [reflexivity|]. split; [reflexivity|].
  split; [eexists; vm_compute; reflexivity|].
  destruct st, ut, an, ce, onr;
    (eexists; eexists; split; [vm_compute; reflexivity|];
     repeat split; vm_compute; reflexivity).
Qed.

(** ** The pass, step by step *)

Lemma ready_some g c :
  ready (mkView g (Some c)) = Ret (isReady g c) (mkView g (Some c)).
Proof. unfold ready, isReady. run. by destruct (static g). Qed.

Lemma ready_static g o :
  static g = true → ready (mkView g o) = Ret true (mkView g o).
Proof. intros Hs. unfold ready. run. by rewrite Hs. Qed.

Lemma ready_null g :
  static g = false →
  ready (mkView g None) = Raise TypeError (mkView g None).
Proof. intros Hs. unfold ready. run. by rewrite Hs. Qed.

Lemma initStyles_some g c :
  initStyles (mkView g (Some c)) = Ret tt (styledView g c).
Proof.
  unfold initStyles. run. rewrite ready_some. unfold styledView.
  by destruct (isReady g c).
Qed.

Lemma setup_some g c first rest :
  children c = first :: rest →
  let colW := rectWidth first + gutter g in
  setup (mkView g (Some c))
  = match numColsOf g (clientWidth c) colW with
    | PInf => Spin
    | n => Ret (colsFor n, wSpaceOf g (clientWidth c) colW) (mkView g (Some c))
    end.
Proof.
  intros Hc colW. unfold setup. run. rewrite (colWidth_first _ _ _ _ Hc). run.
  fold colW. unfold wSpaceOf.
  by destruct (numColsOf g (clientWidth c) colW).
Qed.

Lemma styledView_cont g c : ∃ c', cont (styledView g c) = Some c'.
Proof. unfold styledView. destruct (isReady g c); simpl; eauto. Qed.

Lemma styledView_config g c :
  withStyled (styledItems g) (obj (styledView g c)) = g.
Proof. unfold styledView. destruct (isReady g c), g; reflexivity. Qed.

Lemma layoutPass_null g : layoutPass (mkView g None) = Raise TypeError (mkView g None).
Proof. reflexivity. Qed.

Lemma layoutPass_no_items g c :
  children c = [] →
  layoutPass (mkView g (Some c)) = Raise TypeError (mkView g (Some c)).
Proof.
  intros Hc. unfold layoutPass, setup. run. rewrite (colWidth_no_items _ _ Hc).
  reflexivity.
Qed.

Lemma layoutPass_some g c first rest :
  children c = first :: rest →
  layoutPass (mkView g (Some c))
  = match numColsOf g (clientWidth c) (rectWidth first + gutter g) with
    | PInf => Spin
    | _ =>
        let r := passLoop g c first in
        match failure r with
        | Some e => Raise e (passView g c r)
        | None => Ret r (passView g c r)
        end
    end.
Proof.
  intros Hc. unfold layoutPass. run. rewrite (setup_some _ _ _ _ Hc).
  set (colW := rectWidth first + gutter g).
  destruct (numColsOf g (clientWidth c) colW) eqn:En; try reflexivity.
  all: run; rewrite (colWidth_first _ _ _ _ Hc); run; rewrite initStyles_some;
    unfold passLoop, passView, centerOffset, wSpaceOf; fold colW; rewrite En;
    destruct (styledView g c) as [g' [c'|]] eqn:Ev; run.
  all: try (pose proof (styledView_cont g c) as [? Hx]; rewrite Ev in Hx;
            discriminate).
  all: cbv beta iota delta [default from_option fmap option_fmap option_map id];
    match goal with
    | |- context [failure ?r] => destruct (failure r); reflexivity
    end.
Qed.

(** ** Column selection *)

Lemma getMinFrom_lookup cols : ∀ pre best,
  (pre ++ cols) !! best.1 = Some best.2 →
  (pre ++ cols) !! (getMinFrom best (length pre) cols).1
  = Some (getMinFrom best (length pre) cols).2.
Proof.
  induction cols as [|c cols IH]; intros pre best Hb; simpl; [done|].
  specialize (IH (pre ++ [c])).
  rewrite length_app, Nat.add_1_r in IH. rewrite <- app_assoc in IH.
  apply IH. destruct (height c <? height best.2); [|done].
  simpl. rewrite lookup_app_r, Nat.sub_diag by lia. done.
Qed.

Lemma getMin_lookup cols k col :
  getMin cols = Some (k, col) → cols !! k = Some col.
Proof.
  destruct cols as [|c cols]; [done|]. simpl. intros [= E].
  pose proof (getMinFrom_lookup cols [c] (O, c) eq_refl) as H.
  simpl in H. rewrite E in H. exact H.
Qed.

(** The column [nextCol] returns is an entry of [cols]. *)
Lemma nextCol_lookup g cols i k col :
  nextCol g cols i = Some (k, col) → cols !! k = Some col.
Proof.
  unfold nextCol. destruct (useMin g); [apply getMin_lookup|].
  destruct (length cols) eqn:El; [done|].
  destruct (cols !! _) eqn:E; simpl; [|done]. by intros [= <- <-].
Qed.

(** Without columns there is no column to return. *)
Lemma nextCol_nil g i : nextCol g [] i = None.
Proof. unfold nextCol. by destruct (useMin g). Qed.

(** Round-robin: item [i] gets column [i mod numCols]. *)
Lemma nextCol_round_robin g cols i :
  useMin g = false → cols ≠ [] →
  nextCol g cols i
  = (fun col => ((i mod length cols)%nat, col))
      <$> cols !! (i mod length cols)%nat.
Proof.
  intros Hm Hne. unfold nextCol. rewrite Hm.
  destruct cols as [|c cols]; [done|]. simpl length.
  by destruct (_ !! _).
Qed.

(** ** The loop of [positionItems] *)

Lemma placeItems_cons g colW ws i item rest cols mh k col :
  nextCol g cols i = Some (k, col) →
  let tg := if height col =? 0 then 0 else gutter g in
  let h' := height col + (rectHeight item + tg) in
  let r := placeItems g colW ws (S i) rest
             (<[k := mkColumn h' (index col)]> cols)
             (if mh <? h' then h' else mh) in
  placeItems g colW ws i (item :: rest) cols mh
  = mkPlaced (setPosition g (add (Fin (index col * colW)) ws)
                          (height col + tg) item :: placedItems r)
             (mkPlacement i k (height col) tg
                          (add (Fin (index col * colW)) ws)
                          (height col + tg) (rectHeight item) :: plan r)
             (finalCols r) (finalMax r) (failure r).
Proof. intros E. simpl. rewrite E. reflexivity. Qed.

(** Every placement of the loop, in terms of the columns the loop started
    with and of the placements before it. *)
Lemma placeItems_placement g colW ws : ∀ its i cols mh pre p post,
  plan (placeItems g colW ws i its cols mh) = pre ++ p :: post →
  ∃ col0 item,
    cols !! colIndex p = Some col0 ∧
    its !! length pre = Some item ∧
    itemIndex p = (i + length pre)%nat ∧
    itemHeight p = rectHeight item ∧
    heightBefore p
      = height col0 + total (growth <$> inColumn (colIndex p) pre) ∧
    topGutter p = (if heightBefore p =? 0 then 0 else gutter g) ∧
    topPx p = heightBefore p + topGutter p ∧
    leftPx p = add (Fin (index col0 * colW)) ws.
Proof.
  induction its as [|item rest IH]; intros i cols mh pre p post Hp.
  { simpl in Hp. by destruct pre. }
  destruct (nextCol g cols i) as [[k col]|] eqn:En.
  2:{ simpl in Hp. rewrite En in Hp. simpl in Hp. by destruct pre. }
  pose proof (nextCol_lookup _ _ _ _ _ En) as Hk.
  rewrite (placeItems_cons _ _ _ _ _ _ _ _ _ _ En) in Hp. simpl in Hp.
  destruct pre as [|p0 pre].
  - simpl in Hp. injection Hp as <- _. simpl.
    exists col, item. rewrite Nat.add_0_r, Z.add_0_r. done.
  - simpl in Hp. injection Hp as <- Hp.
    destruct (IH _ _ _ _ _ _ Hp)
      as (col1 & item1 & Hc1 & Hi1 & Hidx & Hh & Hb & Htg & Htop & Hleft).
    unfold inColumn. rewrite filter_cons. simpl colIndex.
    destruct (decide (k = colIndex p)) as [->|Hne].
    + rewrite list_lookup_insert_eq in Hc1 by (by eapply lookup_lt_Some).
      injection Hc1 as <-. cbn [height index] in Hb, Hleft.
      exists col, item1.
      rewrite fmap_cons. cbn [total foldr]. unfold growth at 1.
      cbn [itemHeight topGutter]. fold (total (growth <$> filter (fun q => colIndex q = colIndex p) pre)).
      cbn [length lookup list_lookup]. rewrite Nat.add_succ_r.
      repeat split; try done. unfold inColumn in Hb. lia.
    + rewrite list_lookup_insert_ne in Hc1 by done.
      exists col1, item1.
      cbn [length lookup list_lookup]. rewrite Nat.add_succ_r.
      repeat split; done.
Qed.

(** The columns at the end of the loop: every column has grown by what the
    placements into it added. *)
Lemma placeItems_finalCols g colW ws : ∀ its i cols mh k,
  let r := placeItems g colW ws i its cols mh in
  finalCols r !! k
  = (fun c0 => mkColumn (height c0 + total (growth <$> inColumn k (plan r)))
                        (index c0)) <$> cols !! k.
Proof.
  induction its as [|item rest IH]; intros i cols mh k.
  { simpl. destruct (cols !! k) as [[h x]|]; simpl; [|done].
    by rewrite Z.add_0_r. }
  destruct (nextCol g cols i) as [[j col]|] eqn:En.
  2:{ simpl. rewrite En. simpl. destruct (cols !! k) as [[h x]|]; simpl; [|done].
      by rewrite Z.add_0_r. }
  pose proof (nextCol_lookup _ _ _ _ _ En) as Hj.
  cbv zeta. rewrite (placeItems_cons _ _ _ _ _ _ _ _ _ _ En).
  cbn [finalCols plan]. rewrite IH. unfold inColumn. rewrite filter_cons.
  cbn [colIndex]. destruct (decide (j = k)) as [->|Hne].
  - rewrite list_lookup_insert_eq by (by eapply lookup_lt_Some). rewrite Hj.
    cbn [fmap option_fmap option_map list_fmap height index total foldr].
    unfold growth at 2. cbn [itemHeight topGutter]. do 2 f_equal.
    fold (total (growth <$> filter (fun q => colIndex q = k)
      (plan (placeItems g colW ws (S i) rest
         (<[k:=mkColumn (height col + (rectHeight item +
              (if height col =? 0 then 0 else gutter g))) (index col)]> cols)
         (if mh <? height col + (rectHeight item +
              (if height col =? 0 then 0 else gutter g))
          then height col + (rectHeight item +
              (if height col =? 0 then 0 else gutter g)) else mh))))).
    lia.
  - by rewrite list_lookup_insert_ne by done.
Qed.

(** [initStyles] changes styles only: identities and rectangles stay. *)
Lemma styleItems_measures g : ∀ its s,
  Forall2 (fun a b => ident a = ident b ∧ rectWidth a = rectWidth b ∧
                      rectHeight a = rectHeight b)
          (styleItems g its s).1 its.
Proof.
  induction its as [|it rest IH]; intros s; simpl; [constructor|].
  destruct (bool_decide _); simpl; constructor; auto.
Qed.

Lemma styledView_measures g c :
  ∃ c', cont (styledView g c) = Some c' ∧
        clientWidth c' = clientWidth c ∧
        Forall2 (fun a b => ident a = ident b ∧ rectWidth a = rectWidth b ∧
                            rectHeight a = rectHeight b)
                (children c') (children c).
Proof.
  unfold styledView. destruct (isReady g c); simpl.
  - eexists. split; [done|]. split; [done|]. apply styleItems_measures.
  - exists c. split; [done|]. split; [done|].
    apply Forall2_same_length_lookup_2; [done|]. by intros ??? -> [= <-].
Qed.

(** ** Gutters and column heights *)

Lemma total_zero l : Forall (fun x => x = 0) l → total l = 0.
Proof. induction 1 as [|x l -> _ IH]; simpl; [done|]. by rewrite IH. Qed.

Lemma total_nonneg_zero l :
  Forall (fun x => 0 ≤ x) l → total l = 0 → Forall (fun x => x = 0) l.
Proof.
  induction 1 as [|x l Hx Hl IH]; simpl; intros Ht; [constructor|].
  assert (0 ≤ total l).
  { clear -Hl. induction Hl; simpl; lia. }
  constructor; [lia|]. apply IH. lia.
Qed.

(** Below items of height 0 only, a column is still at height 0. *)
Lemma wellStacked_zero gut ps :
  wellStacked gut ps →
  ∀ n pre p post, length pre = n → ps = pre ++ p :: post →
    Forall (fun q => itemHeight q = 0) (inColumn (colIndex p) pre) →
    heightBefore p = 0.
Proof.
  intros Hw n. induction (lt_wf n) as [n _ IH].
  intros pre p post Hn Hps Hz.
  destruct (Hw _ _ _ Hps) as [-> _]. apply total_zero.
  apply Forall_fmap, Forall_forall. intros q Hq. simpl.
  pose proof Hq as Hq'. unfold inColumn in Hq'.
  apply list_elem_of_filter in Hq' as [Hcol Hin].
  apply list_elem_of_split in Hin as (pre1 & pre2 & ->).
  assert (heightBefore q = 0) as H0.
  { apply (IH (length pre1)) with (pre := pre1) (post := pre2 ++ p :: post).
    - rewrite <- Hn, length_app. simpl. lia.
    - done.
    - by rewrite Hps, <- app_assoc.
    - rewrite Hcol. unfold inColumn in *. rewrite filter_app in Hz.
      by apply Forall_app in Hz as [? _]. }
  destruct (Hw pre1 q (pre2 ++ p :: post)) as [_ Hg].
  { by rewrite Hps, <- app_assoc. }
  rewrite H0 in Hg. simpl in Hg. unfold growth.
  rewrite Forall_forall in Hz. rewrite (Hz q Hq), Hg. done.
Qed.

Lemma layoutPass_Ret g c r v' :
  layoutPass (mkView g (Some c)) = Ret r v' →
  ∃ first rest,
    children c = first :: rest ∧ r = passLoop g c first ∧
    failure r = None ∧ v' = passView g c r.
Proof.
  intros H. destruct (children c) as [|first rest] eqn:Hc.
  { by rewrite (layoutPass_no_items _ _ Hc) in H. }
  exists first, rest. split; [done|].
  rewrite (layoutPass_some _ _ _ _ Hc) in H.
  destruct (numColsOf _ _ _); try done;
    cbv zeta in H; destruct (failure (passLoop g c first)) eqn:Ef; try done;
    by injection H as <- <-.
Qed.

Lemma colsFor_lookup n k col :
  colsFor n !! k = Some col → col = mkColumn 0 (Z.of_nat k).
Proof.
  destruct n as [z| | |]; simpl; try done. intros H.
  pose proof (lookup_lt_Some _ _ _ H) as Hk. rewrite length_freshCols in Hk.
  rewrite lookup_freshCols in H by done. by injection H as <-.
Qed.

(** The loop of the pass stacks well, whatever the items. *)
Lemma placeItems_wellStacked g colW ws its n :
  wellStacked (gutter g) (plan (placeItems g colW ws 0 its (colsFor n) 0)).
Proof.
  intros pre p post Hp.
  destruct (placeItems_placement _ _ _ _ _ _ _ _ _ _ Hp)
    as (col0 & item & Hc & _ & _ & _ & Hb & Hg & _).
  apply colsFor_lookup in Hc as ->. simpl in Hb. done.
Qed.

(** C3, as the code has it. For every item placed during a layout pass: the
    accumulated height of its column is the sum, over the items placed into
    that column before it, of their measured height plus the gutter above
    them; the gutter above the item is 0 if that accumulated height is 0 and
    the configured gutter otherwise; its top offset is the accumulated height
    plus the gutter above it.  With a positive gutter and non-negative
    measured heights, the gutter above an item is 0 if and only if every
    item placed earlier into its column has measured height 0, which the
    first item of a column satisfies. *)
Theorem gutter_above_item g c r v' pre p post :
  layoutPass (mkView g (Some c)) = Ret r v' →
  plan r = pre ++ p :: post →
  let earlier := inColumn (colIndex p) pre in
  (∃ item, children c !! length pre = Some item ∧
           itemIndex p = length pre ∧ itemHeight p = rectHeight item) ∧
  heightBefore p = total (growth <$> earlier) ∧
  topGutter p = (if heightBefore p =? 0 then 0 else gutter g) ∧
  topPx p = heightBefore p + topGutter p ∧
  (0 < gutter g →
   Forall (fun it => 0 ≤ rectHeight it) (children c) →
   (topGutter p = 0 ↔ Forall (fun q => itemHeight q = 0) earlier)).
Proof.
  intros Hpass Hp earlier.
  destruct (layoutPass_Ret _ _ _ _ Hpass) as (first & rest & Hc & -> & _ & _).
  unfold passLoop in Hp.
  destruct (styledView_measures g c) as (c' & Ec' & _ & Hm).
  rewrite Ec' in Hp. cbn [fmap option_fmap option_map default from_option id] in Hp.
  set (colW := rectWidth first + gutter g) in *.
  pose proof (placeItems_wellStacked g colW
                (centerOffset g (clientWidth c) colW) (children c')
                (numColsOf g (clientWidth c) colW)) as Hw.
  assert (∀ pre1 q post1,
            plan (placeItems g colW (centerOffset g (clientWidth c) colW) 0
                    (children c') (colsFor (numColsOf g (clientWidth c) colW)) 0)
            = pre1 ++ q :: post1 →
            ∃ item, children c !! length pre1 = Some item ∧
                    itemIndex q = length pre1 ∧
                    itemHeight q = rectHeight item) as Hitem.
  { intros pre1 q post1 Hq.
    destruct (placeItems_placement _ _ _ _ _ _ _ _ _ _ Hq)
      as (_ & item' & _ & Hi & Hidx & Hh & _).
    destruct (Forall2_lookup_l _ _ _ _ _ Hm Hi) as (item & Hi0 & _ & _ & Hh0).
    exists item. rewrite Hh, Hh0. done. }
  destruct (Hw _ _ _ Hp) as [Hb Hg].
  destruct (placeItems_placement _ _ _ _ _ _ _ _ _ _ Hp)
    as (_ & _ & _ & _ & _ & _ & _ & _ & Htop & _).
  split; [by eapply Hitem|]. split; [done|]. split; [done|]. split; [done|].
  intros Hgut Hnn. split.
  - intros Hz.
    assert (heightBefore p = 0) as H0.
    { destruct (Z.eqb_spec (heightBefore p) 0); [done|lia]. }
    rewrite Hb in H0. apply total_nonneg_zero in H0.
    + rewrite Forall_fmap in H0. rewrite Forall_forall in H0 |- *.
      intros q Hq. specialize (H0 q Hq). simpl in H0.
      pose proof Hq as Hq'. unfold earlier, inColumn in Hq'.
      apply list_elem_of_filter in Hq' as [_ Hin].
      apply list_elem_of_split in Hin as (pre1 & pre2 & ->).
      rewrite <- app_assoc in Hp. simpl in Hp.
      destruct (Hitem _ _ _ Hp) as (item & Hi & _ & Hh).
      destruct (Hw _ _ _ Hp) as [_ Hgq].
      rewrite Forall_forall in Hnn.
      pose proof (Hnn item (list_elem_of_lookup_2 _ _ _ Hi)).
      unfold growth in H0. destruct (heightBefore q =? 0); lia.
    + apply Forall_fmap, Forall_forall. intros q Hq. simpl.
      unfold earlier, inColumn in Hq.
      apply list_elem_of_filter in Hq as [_ Hin].
      apply list_elem_of_split in Hin as (pre1 & pre2 & ->).
      rewrite <- app_assoc in Hp. simpl in Hp.
      destruct (Hitem _ _ _ Hp) as (item & Hi & _ & Hh).
      destruct (Hw _ _ _ Hp) as [_ Hgq].
      rewrite Forall_forall in Hnn.
      pose proof (Hnn item (list_elem_of_lookup_2 _ _ _ Hi)).
      unfold growth. destruct (heightBefore q =? 0); lia.
  - intros Hz. rewrite Hg.
    rewrite (wellStacked_zero _ _ Hw _ _ _ _ eq_refl Hp Hz). done.
Qed.

(** The fourth item goes into column 0 below an item of height 0 and gets
    no gutter, although it is not the first item of its column. *)
Lemma flatFirst_second_item_without_gutter :
  ∃ r v', layoutPass flatFirst = Ret r v' ∧ gutter (obj flatFirst) = 10 ∧
          ¬ gutterIffFirst (plan r).
Proof.
  eexists. eexists. split; [vm_compute; reflexivity|]. split; [done|].
  intros H.
  specialize (H [mkPlacement 0 0 0 0 (Fin 0) 0 0;
                 mkPlacement 1 1 0 0 (Fin 100) 0 50;
                 mkPlacement 2 2 0 0 (Fin 200) 0 50]
                (mkPlacement 3 0 0 0 (Fin 0) 0 40) [] eq_refl).
  destruct H as [H _]. specialize (H eq_refl). discriminate H.
Qed.

Lemma gutter_above_item_witness :
  ∃ r v' p,
    layoutPass flatFirst = Ret r v' ∧
    plan r !! 3%nat = Some p ∧
    heightBefore p = 0 ∧ topGutter p = 0 ∧ topPx p = 0.
Proof.
  eexists. eexists. exists (mkPlacement 3 0 0 0 (Fin 0) 0 40).
  split; [vm_compute; reflexivity|]. split; [reflexivity|].
  pose proof (gutter_above_item
    (obj flatFirst)
    (mkContainer "grid" 300
       [box 0 90 0; box 1 90 50; box 2 90 50; box 3 90 40] None None)
    _ _
    [mkPlacement 0 0 0 0 (Fin 0) 0 0;
     mkPlacement 1 1 0 0 (Fin 100) 0 50;
     mkPlacement 2 2 0 0 (Fin 200) 0 50]
    (mkPlacement 3 0 0 0 (Fin 0) 0 40) []
    ltac:(vm_compute; reflexivity) ltac:(reflexivity)) as H.
  cbv zeta in H. destruct H as (_ & Hb & Hg & Ht & _).
  simpl in Hb, Hg, Ht. done.
Defined.

(** ** A container without items *)

(** C4, as the code has it. On a container that holds no item a layout pass
    does not complete: computing the column width reads the first child and
    raises a [TypeError] before anything is written, so no style changes and
    the container height stays as it was. *)
Theorem positionItems_no_items g c :
  children c = [] →
  positionItems (mkView g (Some c)) = Raise TypeError (mkView g (Some c)).
Proof.
  intros Hc. unfold positionItems. run.
  by rewrite (layoutPass_no_items _ _ Hc).
Qed.

Lemma positionItems_no_items_witness :
  children emptyContainer = [] ∧
  positionItems emptyView = Raise TypeError emptyView.
Proof.
  split; [reflexivity|].
  apply (positionItems_no_items (obj emptyView) emptyContainer). reflexivity.
Defined.

(** The pass on the empty container does not return. *)
Lemma empty_pass_raises :
  (children <$> cont emptyView) = Some [] ∧
  ¬ ∃ v', positionItems emptyView = Ret tt v'.
Proof. split; [done|]. intros [v' H]. vm_compute in H. discriminate H. Qed.

(** ** Centering *)

Lemma In_plan_split (ps : list Placement) p :
  p ∈ ps → ∃ pre post, ps = pre ++ p :: post.
Proof. apply list_elem_of_split. Qed.

(** The left offset of every placement of a pass. *)
Lemma layoutPass_left g c r v' first rest p :
  layoutPass (mkView g (Some c)) = Ret r v' →
  children c = first :: rest →
  p ∈ plan r →
  let colW := rectWidth first + gutter g in
  leftPx p = add (Fin (Z.of_nat (colIndex p) * colW))
                 (centerOffset g (clientWidth c) colW).
Proof.
  intros Hpass Hc Hp colW.
  destruct (layoutPass_Ret _ _ _ _ Hpass) as (first' & rest' & Hc' & -> & _ & _).
  rewrite Hc in Hc'. injection Hc' as <- <-.
  apply In_plan_split in Hp as (pre & post & Hp). unfold passLoop in Hp.
  destruct (placeItems_placement _ _ _ _ _ _ _ _ _ _ Hp)
    as (col0 & _ & Hcol & _ & _ & _ & _ & _ & _ & Hleft).
  apply colsFor_lookup in Hcol as ->. exact Hleft.
Qed.

(** Where the cap [maxColumns] lowers the count of columns of positive
    width, space is left over: the leftover is positive. *)
Lemma capped_leftover_positive g width colW m :
  0 < colW →
  maxColumns g = Some m →
  or_else (floor_div (width + gutter g) colW) (Fin 1) ≠ Fin m →
  numColsOf g width colW = Fin m →
  ∃ z, wSpaceOf g width colW = Fin z ∧ 0 < z.
Proof.
  intros Hc Hm Hraw Hn. unfold wSpaceOf. rewrite Hn.
  exists (width + - (m * colW) + gutter g). split; [reflexivity|].
  unfold numColsOf in Hn. rewrite Hm in Hn. revert Hraw Hn.
  unfold floor_div, or_else. assert ((colW =? 0) = false) as -> by lia.
  pose proof (Z.mod_pos_bound (width + gutter g) colW Hc) as Hmod.
  pose proof (Z.div_mod (width + gutter g) colW ltac:(lia)) as Hdm.
  set (q := (width + gutter g) / colW) in *. cbn [truthy].
  destruct (Z.eqb_spec q 0) as [Hq|Hq]; cbn [negb]; intros Hraw;
    destruct (Z.eqb_spec m 0) as [Hm0|Hm0]; cbn [negb andb gt].
  - intros [= <-]. done.
  - destruct (Z.ltb_spec m 1); [|intros [= <-]; done]. intros _. nia.
  - intros Hn. done.
  - destruct (Z.ltb_spec m q); [|intros Hn; done]. intros _. nia.
Qed.

(** C5, as the code has it. When centering is enabled, the offset added to
    every item's left coordinate is the floor of half the leftover space,
    whatever its sign: a negative leftover gives a negative offset. *)
Theorem center_offset_of_leftover g c r v' first rest z :
  layoutPass (mkView g (Some c)) = Ret r v' →
  children c = first :: rest →
  center g = true →
  let colW := rectWidth first + gutter g in
  wSpaceOf g (clientWidth c) colW = Fin z →
  centerOffset g (clientWidth c) colW = Fin (z / 2) ∧
  (z < 0 → z / 2 < 0) ∧
  ∀ p, p ∈ plan r → leftPx p = Fin (Z.of_nat (colIndex p) * colW + z / 2).
Proof.
  intros Hpass Hc Hce colW Hz.
  assert (centerOffset g (clientWidth c) colW = Fin (z / 2)) as Ho.
  { unfold centerOffset. rewrite Hce. fold colW. by rewrite Hz. }
  split; [done|]. split.
  - intros Hneg. apply Z.div_lt_upper_bound; lia.
  - intros p Hp. rewrite (layoutPass_left _ _ _ _ _ _ _ Hpass Hc Hp).
    fold colW. by rewrite Ho.
Qed.

(** The single column is wider than the container: the leftover is -40 and
    the item is put at left -20. *)
Lemma narrow_offset_negative :
  center (obj narrow) = true ∧
  wSpaceOf (obj narrow) 50 100 = Fin (-40) ∧
  centerOffset (obj narrow) 50 100 = Fin (-20) ∧
  ∃ r v', layoutPass narrow = Ret r v' ∧
          leftPx <$> plan r = [Fin (-20)] ∧
          (left_ ∘ style <$> placedItems r) = [Some (Px (Fin (-20)))].
Proof.
  split; [reflexivity|]. split; [reflexivity|]. split; [reflexivity|].
  eexists. eexists. split; [vm_compute; reflexivity|]. split; reflexivity.
Qed.

Lemma center_offset_of_leftover_witness :
  ∃ r v',
    layoutPass narrow = Ret r v' ∧
    centerOffset (obj narrow) 50 (90 + 10) = Fin (-40 / 2) ∧
    (-40 < 0 → -40 / 2 < 0) ∧
    ∀ p, p ∈ plan r → leftPx p = Fin (Z.of_nat (colIndex p) * (90 + 10) + -40 / 2).
Proof.
  eexists. eexists. split; [vm_compute; reflexivity|].
  eapply (center_offset_of_leftover (obj narrow)
            (mkContainer "grid" 50 [box 0 90 40] None None) _ _
            (box 0 90 40) [] (-40)).
  - vm_compute. reflexivity.
  - reflexivity.
  - reflexivity.
  - reflexivity.
Defined.

(** ** Running the pass again *)

Lemma setPosition_twice g l t it :
  setPosition g l t (setPosition g l t it) = setPosition g l t it.
Proof. unfold setPosition. by destruct (useTransform g). Qed.

(** The loop run over the items it has styled does the same to them. *)
Lemma placeItems_again g colW ws : ∀ its i cols mh,
  let r := placeItems g colW ws i its cols mh in
  placeItems g colW ws i (placedItems r) cols mh = r.
Proof.
  induction its as [|item rest IH]; intros i cols mh; [done|].
  destruct (nextCol g cols i) as [[k col]|] eqn:En.
  - cbv zeta. rewrite (placeItems_cons _ _ _ _ _ _ _ _ _ _ En).
    cbn [placedItems]. rewrite (placeItems_cons _ _ _ _ _ _ _ _ _ _ En).
    assert (rectHeight (setPosition g (add (Fin (index col * colW)) ws)
              (height col + (if height col =? 0 then 0 else gutter g)) item)
            = rectHeight item) as -> by done.
    rewrite setPosition_twice. specialize (IH (S i)). cbv zeta in IH.
    by rewrite IH.
  - cbv zeta. simpl. rewrite En. simpl. by rewrite En.
Qed.

Lemma placeItems_measures g colW ws : ∀ its i cols mh,
  sameMeasures (placedItems (placeItems g colW ws i its cols mh)) its.
Proof.
  induction its as [|item rest IH]; intros i cols mh; simpl; [constructor|].
  destruct (nextCol g cols i) as [[k col]|]; simpl.
  - constructor; [done|apply IH].
  - apply Forall2_same_length_lookup_2; [done|]. by intros ??? -> [= <-].
Qed.

(** The loop reads [useMin], [gutter] and [useTransform] of the object and
    nothing else: the set of styled items does not matter to it. *)
Lemma placeItems_withStyled s g colW ws : ∀ its i cols mh,
  placeItems (withStyled s g) colW ws i its cols mh
  = placeItems g colW ws i its cols mh.
Proof.
  induction its as [|item rest IH]; intros i cols mh; [done|].
  simpl. change (nextCol (withStyled s g) cols i) with (nextCol g cols i).
  destruct (nextCol g cols i) as [[k col]|]; [|done].
  rewrite IH. reflexivity.
Qed.

(** [initStyles] adds to [styledItems], and all items are in it afterwards. *)
Lemma styleItems_styled g : ∀ its s,
  s ⊆ (styleItems g its s).2 ∧
  Forall (fun it => ident it ∈ (styleItems g its s).2) (styleItems g its s).1.
Proof.
  induction its as [|it rest IH]; intros s; simpl; [split; [done|constructor]|].
  destruct (bool_decide (ident it ∈ s)) eqn:Eb; simpl.
  - destruct (IH s) as [Hs Hf]. split; [done|]. constructor; [|done].
    apply bool_decide_eq_true in Eb. by apply Hs.
  - destruct (IH (s ∪ {[ident it]})) as [Hs Hf]. split.
    + etrans; [apply union_subseteq_l|exact Hs].
    + constructor; [|done]. simpl. apply Hs, elem_of_union_r.
      by apply elem_of_singleton.
Qed.

(** On items that are all styled the loop of [initStyles] changes nothing. *)
Lemma styleItems_id g : ∀ its s,
  Forall (fun it => ident it ∈ s) its → styleItems g its s = (its, s).
Proof.
  induction its as [|it rest IH]; intros s Hf; [done|].
  apply Forall_cons in Hf as [Hit Hf]. simpl.
  rewrite bool_decide_eq_true_2 by done. by rewrite (IH s Hf).
Qed.

Lemma sameMeasures_idents (P : nat → Prop) its its' :
  sameMeasures its' its →
  Forall (fun it => P (ident it)) its → Forall (fun it => P (ident it)) its'.
Proof.
  induction 1 as [|a b ?? (Hi & _) _ IH]; intros Hf; [constructor|].
  apply Forall_cons in Hf as [Hb Hf]. constructor; [by rewrite Hi|auto].
Qed.

Lemma isReady_same g g' c c' :
  static g' = static g → size g' = size g →
  length (children c') = length (children c) →
  isReady g' c' = isReady g c.
Proof. intros Hst Hsz Hl. unfold isReady. by rewrite Hst, Hsz, Hl. Qed.

(** When ready implies that everything is styled already, [initStyles]
    leaves the state as it is. *)
Lemma styledView_id g c :
  (isReady g c = true →
   containerPosition c = Some "relative" ∧
   Forall (fun it => ident it ∈ styledItems g) (children c)) →
  styledView g c = mkView g (Some c).
Proof.
  intros H. unfold styledView. destruct (isReady g c); [|done].
  destruct (H eq_refl) as [Hp Hf]. rewrite (styleItems_id _ _ _ Hf).
  destruct g, c. simpl in *. by rewrite Hp.
Qed.

Lemma sameMeasures_trans a b c :
  sameMeasures a b → sameMeasures b c → sameMeasures a c.
Proof.
  unfold sameMeasures. apply Forall2_trans.
  intros ??? (?&?&?) (?&?&?). repeat split; congruence.
Qed.

(** The state after [initStyles], piece by piece. *)
Lemma styledView_shape g c :
  ∃ s1 c1,
    styledView g c = mkView (withStyled s1 g) (Some c1) ∧
    clientWidth c1 = clientWidth c ∧
    containerHeight c1 = containerHeight c ∧
    sameMeasures (children c1) (children c) ∧
    (isReady g c = true →
     containerPosition c1 = Some "relative" ∧
     Forall (fun it => ident it ∈ s1) (children c1)).
Proof.
  unfold styledView. destruct (isReady g c).
  - eexists _, _. split; [reflexivity|]. split; [done|]. split; [done|].
    split; [apply styleItems_measures|]. intros _. split; [done|].
    apply styleItems_styled.
  - exists (styledItems g), c. split; [by destruct g|].
    split; [done|]. split; [done|]. split; [|done].
    apply Forall2_same_length_lookup_2; [done|]. by intros ??? -> [= <-].
Qed.

Lemma passView_again g c first rest :
  children c = first :: rest →
  numColsOf g (clientWidth c) (rectWidth first + gutter g) ≠ PInf →
  let r := passLoop g c first in
  layoutPass (passView g c r)
  = match failure r with
    | Some e => Raise e (passView g c r)
    | None => Ret r (passView g c r)
    end.
Proof.
  intros Hc Hn r.
  destruct (styledView_shape g c) as (s1 & c1 & Ev & Hw1 & Hh1 & Hm1 & Hr1).
  set (colW := rectWidth first + gutter g) in *.
  set (ws := centerOffset g (clientWidth c) colW).
  set (cols := colsFor (numColsOf g (clientWidth c) colW)).
  assert (r = placeItems g colW ws 0 (children c1) cols 0) as Er.
  { unfold r, passLoop. by rewrite Ev. }
  assert (sameMeasures (placedItems r) (children c)) as Hm.
  { rewrite Er. eapply sameMeasures_trans; [apply placeItems_measures|done]. }
  rewrite Hc in Hm. destruct (placedItems r) as [|first' rest'] eqn:Ep;
    [by apply Forall2_nil_cons_inv in Hm|].
  pose proof Hm as Hm'. apply Forall2_cons in Hm' as [(_ & Hfw & _) _].
  (* the state the first pass left *)
  set (c2 := match failure r with
             | Some _ => withChildren (placedItems r) c1
             | None => withContainerHeight (Px (Fin (finalMax r + gutter g)))
                         (withChildren (placedItems r) c1)
             end).
  assert (passView g c r = mkView (withStyled s1 g) (Some c2)) as Epv.
  { unfold passView. rewrite Ev. cbn [obj cont default from_option id]. unfold c2.
    by destruct (failure r). }
  assert (children c2 = first' :: rest') as Hc2.
  { unfold c2. rewrite <- Ep. by destruct (failure r). }
  assert (clientWidth c2 = clientWidth c) as Hw2.
  { unfold c2. by destruct (failure r). }
  rewrite Epv, (layoutPass_some _ _ _ _ Hc2), Hw2, Hfw.
  change (gutter (withStyled s1 g)) with (gutter g). fold colW.
  change (numColsOf (withStyled s1 g) (clientWidth c) colW)
    with (numColsOf g (clientWidth c) colW).
  (* the second [initStyles] changes nothing *)
  assert (styledView (withStyled s1 g) c2 = mkView (withStyled s1 g) (Some c2))
    as Ev2.
  { apply styledView_id. intros Hr2.
    rewrite (isReady_same g (withStyled s1 g) c c2) in Hr2.
    - destruct (Hr1 Hr2) as [Hp Hf]. split.
      + unfold c2. by destruct (failure r).
      + rewrite Hc2, <- Ep. cbn [styledItems withStyled].
        eapply (sameMeasures_idents (fun i => i ∈ s1)); [|exact Hf].
        rewrite Er. apply placeItems_measures.
    - done.
    - done.
    - rewrite Hc2, Hc. by apply Forall2_length in Hm. }
  assert (passLoop (withStyled s1 g) c2 first' = r) as El.
  { unfold passLoop. rewrite Ev2, Hw2, Hfw.
    cbn [cont fmap option_fmap option_map default from_option id].
    change (gutter (withStyled s1 g)) with (gutter g). fold colW.
    change (centerOffset (withStyled s1 g) (clientWidth c) colW) with ws.
    change (numColsOf (withStyled s1 g) (clientWidth c) colW)
      with (numColsOf g (clientWidth c) colW). fold cols.
    rewrite placeItems_withStyled, Hc2, <- Ep, Er. apply placeItems_again. }
  assert (passView (withStyled s1 g) c2 r = mkView (withStyled s1 g) (Some c2))
    as Epv2.
  { unfold passView. rewrite Ev2. cbn [obj cont default from_option id].
    change (gutter (withStyled s1 g)) with (gutter g).
    unfold c2. destruct (failure r); destruct c1; reflexivity. }
  cbv zeta. rewrite El, Epv2.
  destruct (numColsOf g (clientWidth c) colW); done.
Qed.

Lemma positionItems_layoutPass v :
  positionItems v
  = match layoutPass v with
    | Ret _ v' => Ret tt v'
    | Raise e v' => Raise e v'
    | Spin => Spin
    end.
Proof. unfold positionItems. run. by destruct (layoutPass v). Qed.

(** C8. A layout pass run again on the state a pass has left, on the same
    measures, computes the same placements (column, left and top offset of
    every item) and leaves the same state, container height included; so
    does [positionItems], the pass without the record of its placements. *)
Theorem layoutPass_idempotent v :
  again layoutPass (layoutPass v) = layoutPass v ∧
  again positionItems (positionItems v) = positionItems v.
Proof.
  assert (again layoutPass (layoutPass v) = layoutPass v) as H.
  { destruct v as [g [c|]]; [|done].
    destruct (children c) as [|first rest] eqn:Hc.
    { rewrite (layoutPass_no_items _ _ Hc). simpl.
      by rewrite (layoutPass_no_items _ _ Hc). }
    rewrite (layoutPass_some _ _ _ _ Hc).
    destruct (numColsOf g (clientWidth c) (rectWidth first + gutter g)) eqn:En;
      try done; cbv zeta.
    all: pose proof (passView_again g c first rest Hc) as H; rewrite En in H;
      specialize (H ltac:(done)); cbv zeta in H.
    all: destruct (failure (passLoop g c first)); exact H. }
  split; [done|].
  rewrite (positionItems_layoutPass v).
  destruct (layoutPass v) as [r v'|e v'|] eqn:E; simpl in *; [| |done].
  all: by rewrite positionItems_layoutPass, H.
Qed.

(** ** The widths the pass reads *)

Lemma length_reWidth : ∀ ws its, length (reWidth ws its) = length its.
Proof.
  induction ws as [|w ws IH]; intros [|it its]; simpl; try done.
  by rewrite IH.
Qed.

Lemma reTail_reWidth ws first rest :
  reTail ws (first :: rest) = reWidth (rectWidth first :: ws) (first :: rest).
Proof. simpl. by destruct first. Qed.

Lemma styleItems_reWidth g : ∀ its ws s,
  styleItems g (reWidth ws its) s
  = (reWidth ws (styleItems g its s).1, (styleItems g its s).2).
Proof.
  induction its as [|it rest IH]; intros ws s.
  { by destruct ws. }
  destruct ws as [|w ws].
  { cbn [reWidth]. by destruct (styleItems g (it :: rest) s). }
  simpl. destruct (bool_decide (ident it ∈ s)); rewrite IH; simpl; done.
Qed.

Lemma placeItems_reWidth g colW off : ∀ its ws i cols mh,
  let r := placeItems g colW off i its cols mh in
  placeItems g colW off i (reWidth ws its) cols mh
  = mkPlaced (reWidth ws (placedItems r)) (plan r) (finalCols r) (finalMax r)
             (failure r).
Proof.
  induction its as [|it rest IH]; intros ws i cols mh.
  { by destruct ws. }
  destruct ws as [|w ws].
  { cbv zeta. cbn [reWidth]. by destruct (placeItems g colW off i (it :: rest) cols mh). }
  cbv zeta. cbn [reWidth].
  destruct (nextCol g cols i) as [[k col]|] eqn:En.
  - rewrite !(placeItems_cons _ _ _ _ _ _ _ _ _ _ En).
    cbn [rectHeight withWidth placedItems plan finalCols finalMax failure reWidth].
    specialize (IH ws (S i)). cbv zeta in IH. rewrite IH.
    cbn [placedItems plan finalCols finalMax failure]. reflexivity.
  - simpl. rewrite En. reflexivity.
Qed.

Lemma isReady_length g c c' :
  length (children c') = length (children c) → isReady g c' = isReady g c.
Proof. intros Hl. by apply isReady_same. Qed.

(** The pass on a container whose items after the first have other widths:
    same placements, same columns, same heights, and the widths ride along. *)
Lemma layoutPass_reTail g c ws :
  layoutPass (mkView g (Some (reTailC ws c)))
  = mapRes (reTailP ws) (reTailV ws) (layoutPass (mkView g (Some c))).
Proof.
  destruct (children c) as [|first rest] eqn:Hc.
  { rewrite (layoutPass_no_items g c Hc).
    rewrite (layoutPass_no_items g (reTailC ws c)).
    - reflexivity.
    - unfold reTailC. simpl. by rewrite Hc. }
  assert (children (reTailC ws c) = first :: reWidth ws rest) as Hc'.
  { unfold reTailC. simpl. by rewrite Hc. }
  rewrite (layoutPass_some _ _ _ _ Hc), (layoutPass_some _ _ _ _ Hc').
  change (clientWidth (reTailC ws c)) with (clientWidth c).
  set (colW := rectWidth first + gutter g).
  (* [initStyles] on both sides *)
  destruct (styledView_shape g c) as (s1 & c1 & Ev & Hw1 & Hh1 & Hm1 & _).
  rewrite Hc in Hm1.
  destruct (children c1) as [|first1 rest1] eqn:Hc1;
    [by apply Forall2_nil_cons_inv in Hm1|].
  pose proof Hm1 as Hm1'. apply Forall2_cons in Hm1' as [(_ & Hfw & _) _].
  assert (styledView g (reTailC ws c)
          = mkView (withStyled s1 g) (Some (reTailC ws c1))) as Ev'.
  { revert Ev. unfold styledView.
    rewrite (isReady_length g c (reTailC ws c)).
    2:{ rewrite Hc', Hc. simpl. by rewrite length_reWidth. }
    destruct (isReady g c).
    - rewrite Hc', Hc.
      change (first :: reWidth ws rest) with (reTail ws (first :: rest)).
      rewrite reTail_reWidth, styleItems_reWidth. cbn [fst snd].
      set (X := styleItems g (first :: rest) (styledItems g)).
      intros [= <- <-]. change (X.1 = first1 :: rest1) in Hc1.
      unfold reTailC. cbn [children withChildren withContainerPosition
        className clientWidth containerPosition containerHeight].
      by rewrite Hc1, reTail_reWidth, Hfw.
    - intros [= Hg <-]. by rewrite <- Hg. }
  assert (passLoop g (reTailC ws c) first = reTailP ws (passLoop g c first))
    as El.
  { unfold passLoop. rewrite Ev, Ev'. fold colW.
    change (clientWidth (reTailC ws c)) with (clientWidth c).
    cbn [cont fmap option_fmap option_map default from_option id].
    unfold reTailC at 1. cbn [children withChildren]. rewrite Hc1.
    rewrite (reTail_reWidth ws first1 rest1), placeItems_reWidth.
    unfold reTailP. f_equal.
    pose proof (placeItems_measures g colW (centerOffset g (clientWidth c) colW)
                  (first1 :: rest1) 0
                  (colsFor (numColsOf g (clientWidth c) colW)) 0) as Hm.
    destruct (placedItems _) as [|f2 r2] eqn:Ep;
      [by apply Forall2_nil_cons_inv in Hm|].
    apply Forall2_cons in Hm as [(_ & Hfw2 & _) _].
    rewrite (reTail_reWidth ws f2 r2). congruence. }
  cbv zeta. rewrite El.
  assert (passView g (reTailC ws c) (reTailP ws (passLoop g c first))
          = reTailV ws (passView g c (passLoop g c first))) as Epv.
  { unfold passView. rewrite Ev, Ev'.
    cbn [obj cont default from_option id failure reTailP placedItems].
    unfold reTailV. cbn [obj cont fmap option_fmap option_map]. f_equal. f_equal.
    destruct (failure (passLoop g c first)); unfold reTailC; simpl.
    all: destruct (placedItems (passLoop g c first)); reflexivity. }
  rewrite Epv.
  destruct (numColsOf g (clientWidth c) colW); try done; cbv zeta;
    cbn [failure reTailP]; destruct (failure (passLoop g c first)); done.
Qed.

(** C10. In a layout pass the column width is the measured width of the
    first child plus the gutter: [colWidth] returns it, [setup] counts the
    columns with it and every left offset is a multiple of it (plus the
    centering offset).  The widths of the other items are never read: with
    any other widths for them the pass makes the same placements and leaves
    the same state.  Without a first child [colWidth] raises. *)
Theorem column_width_from_first_item g c :
  (∀ first rest, children c = first :: rest →
     let colW := rectWidth first + gutter g in
     colWidth (mkView g (Some c)) = Ret colW (mkView g (Some c)) ∧
     setup (mkView g (Some c))
     = match numColsOf g (clientWidth c) colW with
       | PInf => Spin
       | n => Ret (colsFor n, wSpaceOf g (clientWidth c) colW)
                  (mkView g (Some c))
       end ∧
     ∀ r v' p,
       layoutPass (mkView g (Some c)) = Ret r v' → p ∈ plan r →
       leftPx p = add (Fin (Z.of_nat (colIndex p) * colW))
                      (centerOffset g (clientWidth c) colW)) ∧
  (∀ ws, layoutPass (mkView g (Some (reTailC ws c)))
         = mapRes (reTailP ws) (reTailV ws) (layoutPass (mkView g (Some c)))) ∧
  (children c = [] →
     colWidth (mkView g (Some c)) = Raise TypeError (mkView g (Some c)) ∧
     layoutPass (mkView g (Some c)) = Raise TypeError (mkView g (Some c))).
Proof.
  split; [|split].
  - intros first rest Hc colW. split; [by apply colWidth_first with rest|].
    split; [by apply setup_some with rest|].
    intros r v' p Hpass Hp. by apply (layoutPass_left g c r v' first rest).
  - intros ws. apply layoutPass_reTail.
  - intros Hc. split; [by apply colWidth_no_items|by apply layoutPass_no_items].
Qed.

(** ** The world around a method call *)

Lemma commit_host v w :
  now (commit v w) = now w ∧ timers (commit v w) = timers w ∧
  nextHandle (commit v w) = nextHandle w ∧
  listeners (commit v w) = listeners w ∧ cells (commit v w) = cells w ∧
  journal (commit v w) = journal w ∧
  querySelector (commit v w) = querySelector w ∧ grid (commit v w) = obj v.
Proof.
  unfold commit. cbn [grid withGrid].
  destruct (container (obj v)), (cont v); done.
Qed.

Lemma lift_sameHost {A} (m : Meth A) w :
  match lift m w with
  | Ret _ w' | Raise _ w' => sameHost w w'
  | Spin => True
  end.
Proof.
  unfold lift. destruct (m (view w)) as [a v|e v|]; [| |done].
  all: destruct (commit_host v w) as (?&?&?&?&?&?&?&?); by repeat split.
Qed.

(** [ready ()] changes nothing. *)
Lemma commit_view w : commit (view w) w = w.
Proof.
  unfold commit, view. cbn [grid withGrid obj cont].
  destruct w as [n q g t ts h ls cs j]. cbn.
  destruct (container g) as [r|]; cbn; [|done].
  destruct (n !! r) as [c|] eqn:E; cbn; [|done].
  unfold withNodes. cbn. by rewrite insert_id.
Qed.

Lemma ready_pure v :
  match ready v with
  | Ret _ v' | Raise _ v' => v' = v
  | Spin => False
  end.
Proof.
  destruct v as [g [c|]].
  - by rewrite ready_some.
  - destruct (static g) eqn:Es.
    + by rewrite ready_static.
    + by rewrite ready_null.
Qed.

Lemma lift_ready w :
  lift ready w
  = match ready (view w) with
    | Ret b _ => Ret b w
    | Raise e _ => Raise e w
    | Spin => Spin
    end.
Proof.
  unfold lift. pose proof (ready_pure (view w)) as H.
  destruct (ready (view w)) as [b v|e v|]; [| |done]; subst v;
    by rewrite commit_view.
Qed.

(** ** Polling for readiness *)

Lemma view_null w :
  container (grid w) = None → view w = mkView (grid w) None.
Proof. intros H. unfold view. by rewrite H. Qed.

(** The tick of [getReady] when the selector finds nothing: [ready] reads
    the children of [null]. *)
Lemma pollTick_missing w h :
  querySelector w (containerClass (grid w)) = None →
  static (grid w) = false →
  pollTick h w
  = Raise TypeError (withGrid (withContainerRef None (grid w)) w).
Proof.
  intros Hq Hs. unfold pollTick. run. rewrite Hq, lift_ready.
  change (view (withGrid (withContainerRef None (grid w)) w))
    with (mkView (withContainerRef None (grid w)) None).
  rewrite ready_null by exact Hs. reflexivity.
Qed.

(** The tick when the selector finds a container that is not ready: nothing
    but [this.container] changes. *)
Lemma pollTick_not_ready w h r c :
  querySelector w (containerClass (grid w)) = Some r →
  nodes w !! r = Some c →
  isReady (grid w) c = false →
  pollTick h w = Ret tt (withGrid (withContainerRef (Some r) (grid w)) w).
Proof.
  intros Hq Hn Hr. unfold pollTick. run. rewrite Hq, lift_ready.
  unfold view. cbn [grid withGrid container withContainerRef nodes mbind
    option_bind]. rewrite Hn, ready_some.
  change (isReady (withContainerRef (Some r) (grid w)) c)
    with (isReady (grid w) c). by rewrite Hr.
Qed.

Lemma rearm_interval t p ts :
  every t = Some p → t ∈ ts →
  mkTimer (handle t) (due t + p) (every t) (task t) ∈ rearm t ts.
Proof.
  intros Hp Hin. unfold rearm. rewrite Hp.
  apply list_elem_of_fmap. exists t. split; [|done].
  cbv beta. rewrite bool_decide_eq_true_2 by done. by rewrite Hp.
Qed.

(** C7, as the code has it. At a polling tick whose container cannot be
    resolved, with [static] off, the readiness check raises a [TypeError]
    (it reads the children of [null]) instead of evaluating to a non-ready
    state.  The exception leaves the timer callback uncaught; the interval is
    not cancelled, it is armed for the next tick, and nothing else changes. *)
Theorem poll_tick_missing_container w t p :
  task t = PollTick →
  every t = Some p →
  querySelector w (containerClass (grid w)) = None →
  static (grid w) = false →
  pollTick (handle t) w
  = Raise TypeError (withGrid (withContainerRef None (grid w)) w) ∧
  ∃ w',
    fire t w = Ret tt w' ∧
    journal w' = journal w ++ [(due t, Uncaught TypeError)] ∧
    timers w' = rearm t (timers w) ∧
    (t ∈ timers w →
     mkTimer (handle t) (due t + p) (Some p) PollTick ∈ timers w') ∧
    listeners w' = listeners w ∧ cells w' = cells w ∧ nodes w' = nodes w.
Proof.
  intros Ht Hp Hq Hs. split; [by apply pollTick_missing|].
  unfold fire, guarded, runTask. run. rewrite Ht.
  rewrite pollTick_missing by done.
  eexists. split; [reflexivity|]. cbn.
  repeat split; try done.
  intros Hin. rewrite <- Hp, <- Ht. by apply rearm_interval.
Qed.

Lemma pollingWorld_reached :
  (constructor elementConfig;; listen) (page twoOfFive byClass)
  = Ret tt pollingWorld.
Proof. vm_compute. reflexivity. Qed.

Lemma poll_tick_missing_container_witness :
  ∃ w',
    fire (mkTimer 1 100 (Some 100) PollTick) pollingWorld = Ret tt w' ∧
    journal w' = [(100, Uncaught TypeError)] ∧
    mkTimer 1 200 (Some 100) PollTick ∈ timers w'.
Proof.
  destruct (poll_tick_missing_container pollingWorld
              (mkTimer 1 100 (Some 100) PollTick) 100
              eq_refl eq_refl eq_refl eq_refl)
    as (_ & w' & Hf & Hj & _ & Hin & _).
  exists w'. split; [exact Hf|]. split; [exact Hj|].
  apply Hin. apply list_elem_of_here.
Defined.

(** The tick on that page does not evaluate to a non-ready state: it
    raises. *)
Lemma tick_on_missing_container_raises :
  querySelector pollingWorld (containerClass (grid pollingWorld)) = None ∧
  ¬ (∃ w', pollTick 1 pollingWorld = Ret tt w').
Proof.
  split; [reflexivity|].
  intros [w' H]. rewrite pollTick_missing in H by reflexivity. discriminate H.
Qed.

(** ** Construction and [listen] *)

Lemma layouts_app j1 j2 : layouts (j1 ++ j2) = layouts j1 ++ layouts j2.
Proof. unfold layouts. by rewrite filter_app, fmap_app. Qed.

(** A call of [positionItems] leaves one entry in the journal, at the
    current time, and the host as it was. *)
Lemma positionItemsW_journal w :
  match positionItemsW w with
  | Ret _ w' =>
      journal w' = journal w ++ [(now w, LayoutDone)] ∧
      timers w' = timers w ∧ listeners w' = listeners w ∧
      cells w' = cells w ∧ now w' = now w ∧ nextHandle w' = nextHandle w
  | Raise e w' =>
      journal w' = journal w ++ [(now w, LayoutRaised e)] ∧
      timers w' = timers w ∧ listeners w' = listeners w ∧
      cells w' = cells w ∧ now w' = now w ∧ nextHandle w' = nextHandle w
  | Spin => lift positionItems w = Spin
  end.
Proof.
  unfold positionItemsW. pose proof (lift_sameHost positionItems w) as H.
  destruct (lift positionItems w) as [[] w'|e w'|]; [| |done].
  all: destruct H as (Hn & Ht & Hh & Hl & Hc & Hj & _).
  all: unfold note; run; cbn; rewrite ?Hn, ?Hj; done.
Qed.

Lemma callOnReady_layouts w :
  ∃ w', callOnReady w = Ret tt w' ∧
        layouts (journal w') = layouts (journal w) ∧
        timers w' = timers w ∧ listeners w' = listeners w ∧
        cells w' = cells w.
Proof.
  unfold callOnReady. destruct (onReady (grid w)).
  - eexists. split; [reflexivity|]. cbn -[layouts]. rewrite layouts_app.
    split; [|done]. unfold layouts at 2. cbn. by rewrite app_nil_r.
  - eexists. split; [reflexivity|]. done.
Qed.

(** [listen ()] when the object is ready: the first pass runs at once. *)
Lemma listen_ready w :
  ready (view w) = Ret true (view w) →
  listen w = (positionItemsW;; callOnReady) (listening w) ∧
  match listen w with
  | Ret _ w' | Raise _ w' =>
      layouts (journal w') = layouts (journal w) ++ [now w] ∧
      listeners w' = listeners w ++ [length (cells w)] ∧
      timers w' = timers w
  | Spin => lift positionItems (listening w) = Spin
  end.
Proof.
  intros Hr.
  assert (listen w = (positionItemsW;; callOnReady) (listening w)) as E.
  { unfold listen. run. rewrite lift_ready, Hr. reflexivity. }
  split; [done|]. rewrite E. run.
  pose proof (positionItemsW_journal (listening w)) as H.
  destruct (positionItemsW (listening w)) as [[] w1|e w1|]; [| |done].
  - destruct H as (Hj & Ht & Hl & Hc & _).
    destruct (callOnReady_layouts w1) as (w2 & -> & Hj2 & Ht2 & Hl2 & _).
    rewrite Hj2, Hj, Ht2, Ht, Hl2, Hl, layouts_app. done.
  - destruct H as (Hj & Ht & Hl & Hc & _).
    rewrite Hj, Ht, Hl, layouts_app. done.
Qed.

(** [listen ()] when the object is not ready: a poll every 100ms. *)
Lemma listen_not_ready w :
  ready (view w) = Ret false (view w) →
  listen w
  = Ret tt (withNextHandle (S (nextHandle w))
              (withTimers
                 (timers w
                  ++ [mkTimer (nextHandle w) (now w + 100) (Some 100) PollTick])
                 w)).
Proof.
  intros Hr. unfold listen. run. rewrite lift_ready, Hr. reflexivity.
Qed.

(** The constructor schedules nothing, registers nothing and runs no pass. *)
Lemma constructor_quiet config w :
  match constructor config w with
  | Ret _ w' | Raise _ w' =>
      timers w' = timers w ∧ listeners w' = listeners w ∧
      cells w' = cells w ∧ journal w' = journal w ∧ now w' = now w
  | Spin => False
  end.
Proof.
  unfold constructor, checkParams. run.
  destruct (Config.container config) as [arg|]; [|done].
  destruct (Config.gutter config) as [gut|]; [|done]. run.
  match goal with
  | |- context [lift initStyles ?w0] =>
      pose proof (lift_sameHost initStyles w0) as H;
      assert (lift initStyles w0 ≠ Spin) as Hns;
      [|destruct (lift initStyles w0) as [[] w'|e w'|]; [| |done];
        destruct H as (Hn & Ht & _ & Hl & Hc & Hj & _);
        rewrite Hn, Ht, Hl, Hc, Hj; done]
  end.
  unfold lift.
  match goal with |- context [initStyles ?v] => destruct v as [g' [c'|]] end.
  - by rewrite initStyles_some.
  - unfold initStyles. run.
    destruct (static g') eqn:Es.
    + rewrite ready_static by done. done.
    + rewrite ready_null by done. done.
Qed.

Lemma view_resolved w r c :
  container (grid w) = Some r → nodes w !! r = Some c →
  view w = mkView (grid w) (Some c).
Proof. intros Hc Hn. unfold view. rewrite Hc. cbn. by rewrite Hn. Qed.

(** A tick that finds its container short of items: polling goes on. *)
Lemma fire_not_ready w t r c :
  task t = PollTick →
  querySelector w (containerClass (grid w)) = Some r →
  nodes w !! r = Some c →
  isReady (grid w) c = false →
  fire t w = Ret tt (ticking t (Some r) w).
Proof.
  intros Ht Hq Hn Hr. unfold fire, guarded, runTask. run. rewrite Ht.
  rewrite (pollTick_not_ready _ _ r c); done.
Qed.

(** A tick that finds its container ready: the interval is cleared and
    [listen] runs the first pass. *)
Lemma fire_ready w t r c :
  task t = PollTick →
  querySelector w (containerClass (grid w)) = Some r →
  nodes w !! r = Some c →
  isReady (grid w) c = true →
  let w0 := withTimers (filter (fun x => handle x ≠ handle t)
                               (timers (ticking t (Some r) w)))
                       (ticking t (Some r) w) in
  match fire t w with
  | Ret _ w' =>
      layouts (journal w') = layouts (journal w) ++ [due t] ∧
      listeners w' = listeners w ++ [length (cells w)] ∧
      Forall (fun x => handle x ≠ handle t) (timers w')
  | Raise _ _ => False
  | Spin => lift positionItems (listening w0) = Spin
  end.
Proof.
  intros Ht Hq Hn Hr w0.
  assert (ready (view w0) = Ret true (view w0)) as Hready.
  { rewrite (view_resolved w0 r c); [|done|done]. rewrite ready_some.
    change (isReady (grid w0) c) with (isReady (grid w) c). by rewrite Hr. }
  assert (fire t w = guarded listen w0) as E.
  { unfold fire, guarded, runTask. run. rewrite Ht. unfold pollTick. run.
    cbn [querySelector withTimers withNow grid containerClass].
    rewrite Hq, lift_ready.
    fold (ticking t (Some r) w).
    rewrite (view_resolved (ticking t (Some r) w) r c); [|done|done].
    rewrite ready_some.
    change (isReady (grid (ticking t (Some r) w)) c) with (isReady (grid w) c).
    rewrite Hr. reflexivity. }
  rewrite E. unfold guarded.
  destruct (listen_ready w0 Hready) as [_ H].
  assert (Forall (fun x => handle x ≠ handle t) (timers w0)) as Hcleared.
  { cbn [timers withTimers w0]. apply Forall_forall. intros x Hx.
    by apply list_elem_of_filter in Hx as [? _]. }
  destruct (listen w0) as [[] w'|e w'|]; [| |done].
  - destruct H as (Hj & Hl & Hts). rewrite Hj, Hl, Hts. done.
  - destruct H as (Hj & Hl & Hts). cbn -[layouts].
    rewrite layouts_app, Hj, Hl, Hts. unfold layouts at 3. cbn.
    rewrite app_nil_r. done.
Qed.

(** C6, as the code has it. Constructing the object validates the
    configuration and initialises the styles, and that is all: it schedules
    no timer, registers no listener and runs no pass.  Readiness detection
    starts when the host calls [listen]: if the object is ready (at once
    under [static]) the first pass runs in that call; if not, a poll every
    100ms is scheduled, a tick that finds the container not ready leaves the
    poll armed, and the tick that finds it ready clears the poll and runs the
    first pass. *)
Theorem readiness_detection_starts_with_listen :
  (∀ config w,
     match constructor config w with
     | Ret _ w' | Raise _ w' =>
         timers w' = timers w ∧ listeners w' = listeners w ∧
         cells w' = cells w ∧ journal w' = journal w ∧ now w' = now w
     | Spin => False
     end) ∧
  (∀ w, static (grid w) = true → ready (view w) = Ret true (view w)) ∧
  (∀ w, ready (view w) = Ret true (view w) →
     match listen w with
     | Ret _ w' | Raise _ w' =>
         layouts (journal w') = layouts (journal w) ++ [now w] ∧
         listeners w' = listeners w ++ [length (cells w)] ∧
         timers w' = timers w
     | Spin => lift positionItems (listening w) = Spin
     end) ∧
  (∀ w, ready (view w) = Ret false (view w) →
     listen w
     = Ret tt (withNextHandle (S (nextHandle w))
                 (withTimers
                    (timers w ++ [mkTimer (nextHandle w) (now w + 100)
                                          (Some 100) PollTick])
                    w))) ∧
  (∀ w t r c,
     task t = PollTick →
     querySelector w (containerClass (grid w)) = Some r →
     nodes w !! r = Some c →
     (isReady (grid w) c = false → fire t w = Ret tt (ticking t (Some r) w)) ∧
     (isReady (grid w) c = true →
      match fire t w with
      | Ret _ w' =>
          layouts (journal w') = layouts (journal w) ++ [due t] ∧
          listeners w' = listeners w ++ [length (cells w)] ∧
          Forall (fun x => handle x ≠ handle t) (timers w')
      | Raise _ _ => False
      | Spin =>
          lift positionItems
            (listening
               (withTimers (filter (fun x => handle x ≠ handle t)
                                   (timers (ticking t (Some r) w)))
                           (ticking t (Some r) w))) = Spin
      end)).
Proof.
  split; [apply constructor_quiet|].
  split; [intros w Hs; unfold view; by apply ready_static|].
  split; [intros w Hr; by apply listen_ready|].
  split; [apply listen_not_ready|].
  intros w t r c Ht Hq Hn. split; intros Hr.
  - by apply fire_not_ready with c.
  - by apply (fire_ready w t r c).
Qed.

(** After a successful construction on a page that is ready, nothing is
    scheduled and nothing registered, and however long the host waits no
    pass runs: the journal stays empty and the container has no height. *)
Lemma construction_alone_runs_no_pass :
  ∃ w1,
    constructor readyConfig (page twoOfFive byClass) = Ret tt w1 ∧
    ready (view w1) = Ret true (view w1) ∧
    timers w1 = [] ∧ listeners w1 = [] ∧ journal w1 = [] ∧
    (containerHeight <$> nodes w1 !! O) = Some None ∧
    ∀ fuel t, advance fuel t w1 = Some (Ret tt (withNow t w1)).
Proof.
  eexists. split; [vm_compute; reflexivity|].
  split; [vm_compute; reflexivity|].
  do 3 (split; [reflexivity|]). split; [vm_compute; reflexivity|].
  intros fuel t. destruct fuel; reflexivity.
Qed.

(** The same page once the host calls [listen]: the pass runs in that call
    and [onReady] is called after it. *)
Example listen_after_construction :
  ∃ w2,
    (constructor readyConfig;; listen) (page twoOfFive byClass) = Ret tt w2 ∧
    journal w2 = [(0, LayoutDone); (0, ReadyCalled)] ∧
    listeners w2 = [O] ∧ timers w2 = [] ∧
    (containerHeight <$> nodes w2 !! O) = Some (Some (Px (Fin 90))).
Proof.
  eexists. split; [vm_compute; reflexivity|].
  repeat split; vm_compute; reflexivity.
Qed.

Example polling_until_ready :
  ∃ w1 w2 w3,
    (constructor waitingConfig;; listen) (page twoOfFive byClass) = Ret tt w1 ∧
    timers w1 = [mkTimer 1 100 (Some 100) PollTick] ∧
    advance 5 250 w1 = Some (Ret tt w2) ∧
    journal w2 = [] ∧ timers w2 = [mkTimer 1 300 (Some 100) PollTick] ∧
    advance 5 1000 (arrive w2) = Some (Ret tt w3) ∧
    journal w3 = [(300, LayoutDone); (300, ReadyCalled)] ∧
    timers w3 = [] ∧ listeners w3 = [O] ∧
    (containerHeight <$> nodes w3 !! O) = Some (Some (Px (Fin 140))).
Proof.
  eexists. eexists. eexists.
  split; [vm_compute; reflexivity|]. split; [reflexivity|].
  split; [vm_compute; reflexivity|]. do 2 (split; [reflexivity|]).
  split; [vm_compute; reflexivity|].
  repeat split; vm_compute; reflexivity.
Qed.

(** ** Resize notifications *)

(** While the timeout is pending a notification changes nothing. *)
Lemma onResize_pending cell h w :
  cells w !! cell = Some (Some h) → onResize cell w = Ret tt w.
Proof. intros Hc. unfold onResize. by rewrite Hc. Qed.

Lemma resize_pending cell h w :
  listeners w = [cell] → cells w !! cell = Some (Some h) →
  resize w = Ret tt w.
Proof.
  intros Hl Hc. unfold resize. rewrite Hl. cbn [dispatch]. run.
  unfold guarded. by rewrite (onResize_pending _ _ _ Hc).
Qed.

Lemma advance_idle fuel t w :
  nextDue t (timers w) = None → advance fuel t w = Some (Ret tt (withNow t w)).
Proof. intros H. destruct fuel; simpl; by rewrite H. Qed.

Lemma resize_first cell w :
  timers w = [] → listeners w = [cell] → cells w !! cell = Some None →
  resize w = Ret tt (armed cell (now w) w).
Proof.
  intros Ht Hl Hc. unfold resize. rewrite Hl. cbn [dispatch]. run.
  unfold guarded, onResize. rewrite Hc. unfold schedule, setCell. run.
  unfold armed. rewrite Ht. destruct w; reflexivity.
Qed.

Lemma armed_pending cell t1 w :
  cells w !! cell = Some None →
  cells (armed cell t1 w) !! cell = Some (Some (nextHandle w)).
Proof.
  intros Hc. cbn [armed cells withCells].
  apply list_lookup_insert_eq. by eapply lookup_lt_Some.
Qed.

Lemma resizeAt_first fuel cell t1 w :
  timers w = [] → listeners w = [cell] → cells w !! cell = Some None →
  resizeAt fuel t1 w = Some (Ret tt (armed cell t1 w)).
Proof.
  intros Ht Hl Hc. unfold resizeAt.
  rewrite advance_idle by (by rewrite Ht). cbn [andThen].
  rewrite (resize_first cell) by done. reflexivity.
Qed.

Lemma resizeAt_pending fuel cell t1 t s w :
  listeners w = [cell] → cells w !! cell = Some None →
  t < t1 + 200 →
  resizeAt fuel t (withNow s (armed cell t1 w))
  = Some (Ret tt (withNow t (armed cell t1 w))).
Proof.
  intros Hl Hc Ht. unfold resizeAt. rewrite advance_idle.
  - cbn [andThen]. f_equal.
    apply (resize_pending cell (nextHandle w)); [done|].
    by apply (armed_pending cell t1).
  - cbn [timers withNow armed withCells withNextHandle withTimers].
    unfold nextDue. rewrite filter_cons. cbn [due].
    rewrite decide_False by lia. reflexivity.
Qed.

Lemma last_nonempty (a : Z) : ∀ l d d', List.last (a :: l) d = List.last (a :: l) d'.
Proof.
  intros l. revert a. induction l as [|b l IH]; intros a d d'; [done|].
  change (List.last (b :: l) d = List.last (b :: l) d'). apply IH.
Qed.

Lemma burst_pending fuel cell t1 w : ∀ ts s,
  listeners w = [cell] → cells w !! cell = Some None →
  Forall (fun t => t < t1 + 200) ts →
  burst fuel ts (withNow s (armed cell t1 w))
  = Some (Ret tt (withNow (List.last ts s) (armed cell t1 w))).
Proof.
  induction ts as [|t ts IH]; intros s Hl Hc Hts; [done|].
  apply Forall_cons in Hts as [Ht Hts]. cbn [burst].
  rewrite (resizeAt_pending fuel cell t1 t s w) by done. cbn [andThen].
  rewrite IH by done.
  destruct ts as [|t' ts]; [done|].
  by rewrite (last_nonempty t' ts t s).
Qed.

(** When the timeout comes due, the pass runs once and the timeout is gone. *)
Lemma advance_armed fuel cell t1 s H w :
  t1 + 200 ≤ H →
  let wb := withNow s (armed cell t1 w) in
  let w0 := withTimers [] (withNow (t1 + 200) wb) in
  match advance (S fuel) H wb with
  | Some (Ret _ w') =>
      layouts (journal w') = layouts (journal w) ++ [t1 + 200] ∧
      timers w' = [] ∧ now w' = H
  | Some (Raise _ _) | None => False
  | Some Spin => lift positionItems w0 = Spin
  end.
Proof.
  intros HH wb w0.
  assert (nextDue H (timers wb)
          = Some (mkTimer (nextHandle w) (t1 + 200) None (Relayout cell))) as Hd.
  { cbn [wb timers withNow armed withCells withNextHandle withTimers].
    unfold nextDue. rewrite filter_cons. cbn [due].
    rewrite decide_True by lia. reflexivity. }
  cbn [advance]. rewrite Hd.
  assert (fire (mkTimer (nextHandle w) (t1 + 200) None (Relayout cell)) wb
          = guarded (relayout cell) w0) as ->.
  { unfold fire. run. f_equal. unfold w0. f_equal.
    cbn [rearm every handle wb timers withNow armed withCells withNextHandle
         withTimers]. rewrite filter_cons. cbn [handle].
    rewrite decide_False by (intros Hx; by apply Hx). reflexivity. }
  unfold guarded, relayout. run.
  pose proof (positionItemsW_journal w0) as Hp.
  destruct (positionItemsW w0) as [[] w1|e w1|]; [| |done].
  - destruct Hp as (Hj & Hts & _). unfold setCell. run.
    rewrite advance_idle by (cbn [timers withCells]; by rewrite Hts).
    cbn -[layouts]. rewrite Hj, Hts, layouts_app. done.
  - destruct Hp as (Hj & Hts & _). unfold note. run.
    rewrite advance_idle by (cbn [timers withJournal]; by rewrite Hts).
    cbn -[layouts]. rewrite !layouts_app, Hj, Hts, layouts_app.
    unfold layouts at 4. cbn. rewrite app_nil_r. done.
Qed.

(** C9, as the code has it. For a burst of resize notifications, the first
    at time [t1] with no timeout pending and the others before [t1 + 200],
    exactly one layout recomputation is triggered, and it is scheduled 200ms
    after the first notification of the burst; while the timeout is pending a
    further notification changes nothing. *)
Theorem resize_burst_one_layout w cell fuel t1 ts H :
  timers w = [] →
  listeners w = [cell] →
  cells w !! cell = Some None →
  Forall (fun t => t < t1 + 200) ts →
  t1 + 200 ≤ H →
  ∃ wb,
    burst fuel (t1 :: ts) w = Some (Ret tt wb) ∧
    journal wb = journal w ∧
    timers wb = [mkTimer (nextHandle w) (t1 + 200) None (Relayout cell)] ∧
    resize wb = Ret tt wb ∧
    match advance (S fuel) H wb with
    | Some (Ret _ w') =>
        layouts (journal w') = layouts (journal w) ++ [t1 + 200] ∧
        timers w' = [] ∧ now w' = H
    | Some (Raise _ _) | None => False
    | Some Spin =>
        lift positionItems (withTimers [] (withNow (t1 + 200) wb)) = Spin
    end.
Proof.
  intros Ht Hl Hc Hts HH.
  exists (withNow (List.last ts t1) (armed cell t1 w)).
  split.
  { cbn [burst]. rewrite (resizeAt_first fuel cell t1 w) by done.
    cbn [andThen].
    change (armed cell t1 w) with (withNow t1 (armed cell t1 w)) at 1.
    by apply burst_pending. }
  split; [done|]. split; [done|]. split.
  { apply (resize_pending cell (nextHandle w)); [done|].
    by apply (armed_pending cell t1). }
  by apply (advance_armed fuel cell t1 (List.last ts t1) H w).
Qed.

Lemma resize_burst_one_layout_witness :
  ∃ wb,
    burst 5 [10; 20; 30; 40; 50; 60; 70; 80; 90; 100] listeningWorld
    = Some (Ret tt wb) ∧
    journal wb = journal listeningWorld ∧
    timers wb = [mkTimer (nextHandle listeningWorld) (10 + 200) None
                         (Relayout O)] ∧
    resize wb = Ret tt wb ∧
    match advance 6 1000 wb with
    | Some (Ret _ w') =>
        layouts (journal w') = layouts (journal listeningWorld) ++ [10 + 200] ∧
        timers w' = [] ∧ now w' = 1000
    | Some (Raise _ _) | None => False
    | Some Spin =>
        lift positionItems (withTimers [] (withNow (10 + 200) wb)) = Spin
    end.
Proof.
  apply (resize_burst_one_layout listeningWorld O 5 10
           [20; 30; 40; 50; 60; 70; 80; 90; 100] 1000).
  - vm_compute. reflexivity.
  - vm_compute. reflexivity.
  - vm_compute. reflexivity.
  - repeat constructor; lia.
  - lia.
Defined.

(** Ten notifications, 10ms apart, the last at 100: the pass runs at 210,
    200ms after the first, and not at 300, 200ms after the last. *)
Lemma burst_layout_not_after_last :
  ∃ w',
    andThen (burst 5 [10; 20; 30; 40; 50; 60; 70; 80; 90; 100] listeningWorld)
            (advance 5 1000)
    = Some (Ret tt w') ∧
    layouts (journal w') = [0; 210] ∧
    List.last [10; 20; 30; 40; 50; 60; 70; 80; 90; 100] 0 + 200 = 300.
Proof.
  eexists. split; [vm_compute; reflexivity|]. split; vm_compute; reflexivity.
Qed.

(** * Further properties of the layout pass *)

(** ** Every item is placed once, in order *)

Lemma placeItems_lengths g colW ws : ∀ its i cols mh,
  let r := placeItems g colW ws i its cols mh in
  length (finalCols r) = length cols ∧
  (failure r = None → length (plan r) = length its).
Proof.
  induction its as [|item rest IH]; intros i cols mh; [done|].
  destruct (nextCol g cols i) as [[k col]|] eqn:En.
  - cbv zeta. rewrite (placeItems_cons _ _ _ _ _ _ _ _ _ _ En).
    cbn [finalCols plan failure length].
    match goal with
    | |- context [placeItems g colW ws (S i) rest ?cs ?m] =>
        destruct (IH (S i) cs m) as [Hl Hp]
    end.
    rewrite Hl, length_insert. split; [done|]. intros Hf. by rewrite Hp.
  - cbv zeta. simpl. rewrite En. simpl. done.
Qed.

(** Under round-robin the loop puts item [i] into column [i mod numCols]. *)
Lemma placeItems_round_robin g colW ws : ∀ its i cols mh pre p post,
  useMin g = false →
  plan (placeItems g colW ws i its cols mh) = pre ++ p :: post →
  cols ≠ [] ∧ colIndex p = ((i + length pre) mod length cols)%nat.
Proof.
  induction its as [|item rest IH]; intros i cols mh pre p post Hm Hp.
  { simpl in Hp. by destruct pre. }
  destruct (nextCol g cols i) as [[k col]|] eqn:En.
  2:{ simpl in Hp. rewrite En in Hp. simpl in Hp. by destruct pre. }
  assert (cols ≠ []) as Hne.
  { intros ->. by rewrite nextCol_nil in En. }
  rewrite nextCol_round_robin in En by done.
  destruct (cols !! (i mod length cols)%nat) as [col'|] eqn:El; [|done].
  injection En as <- <-.
  pose proof (eq_refl : nextCol g cols i = nextCol g cols i) as En.
  rewrite nextCol_round_robin in En at 2 by done. rewrite El in En.
  cbn [fmap option_fmap option_map] in En.
  rewrite (placeItems_cons _ _ _ _ _ _ _ _ _ _ En) in Hp. cbn [plan] in Hp.
  split; [done|]. destruct pre as [|p0 pre].
  - simpl in Hp. injection Hp as <- _. cbn [colIndex length].
    by rewrite Nat.add_0_r.
  - simpl in Hp. injection Hp as _ Hp.
    destruct (IH _ _ _ _ _ _ Hm Hp) as [_ Hc].
    rewrite length_insert in Hc. cbn [length].
    by rewrite Nat.add_succ_r.
Qed.

Lemma length_colsFor_Fin n : length (colsFor (Fin n)) = Z.to_nat n.
Proof. apply length_freshCols. Qed.

(** The loop of a pass that returned, spelled out. *)
Lemma layoutPass_loop g c r v' :
  layoutPass (mkView g (Some c)) = Ret r v' →
  ∃ first rest its,
    children c = first :: rest ∧
    sameMeasures its (children c) ∧
    failure r = None ∧
    r = placeItems g (rectWidth first + gutter g)
          (centerOffset g (clientWidth c) (rectWidth first + gutter g)) 0 its
          (colsFor (numColsOf g (clientWidth c) (rectWidth first + gutter g)))
          0.
Proof.
  intros Hpass.
  destruct (layoutPass_Ret _ _ _ _ Hpass) as (first & rest & Hc & -> & Hf & _).
  destruct (styledView_shape g c) as (s1 & c1 & Ev & _ & _ & Hm & _).
  exists first, rest, (children c1). split; [done|]. split; [done|].
  split; [done|]. unfold passLoop. by rewrite Ev.
Qed.

(** X1. In a pass that returns, every item of the container is placed
    exactly once and in order; under round-robin ([useMin] off) the item at
    index [i] goes into column [i mod numCols], where [numCols] is the number
    of columns [setup] made. *)
Theorem round_robin_assignment g c r v' :
  layoutPass (mkView g (Some c)) = Ret r v' →
  length (plan r) = length (children c) ∧
  (∀ i p, plan r !! i = Some p → itemIndex p = i) ∧
  (useMin g = false →
   ∀ i p, plan r !! i = Some p →
     finalCols r ≠ [] ∧ colIndex p = (i mod length (finalCols r))%nat).
Proof.
  intros Hpass.
  destruct (layoutPass_loop _ _ _ _ Hpass)
    as (first & rest & its & Hc & Hm & Hf & Er).
  set (colW := rectWidth first + gutter g) in *.
  set (off := centerOffset g (clientWidth c) colW) in *.
  set (cols := colsFor (numColsOf g (clientWidth c) colW)) in *.
  destruct (placeItems_lengths g colW off its 0 cols 0) as [Hlc Hlp].
  cbv zeta in Hlc, Hlp. rewrite <- Er in Hlc, Hlp.
  split; [rewrite (Hlp Hf); by apply Forall2_length in Hm|].
  split.
  - intros i p Hi. apply list_elem_of_split_length in Hi as (pre & post & Hp & ->).
    rewrite Er in Hp.
    destruct (placeItems_placement _ _ _ _ _ _ _ _ _ _ Hp)
      as (_ & _ & _ & _ & Hidx & _). by rewrite Hidx.
  - intros Hmin i p Hi.
    apply list_elem_of_split_length in Hi as (pre & post & Hp & ->).
    rewrite Er in Hp.
    destruct (placeItems_round_robin _ _ _ _ _ _ _ _ _ _ Hmin Hp) as [Hne Hk].
    rewrite Hlc. split; [|done]. intros E. apply Hne.
    apply length_zero_iff_nil. rewrite <- Hlc, E. done.
Qed.

Lemma scenario_pass : layoutPass scenarioView = Ret scenarioResult scenarioAfter.
Proof. vm_compute. reflexivity. Qed.

Lemma round_robin_assignment_witness :
  length (plan scenarioResult) = length (children scenarioContainer) ∧
  (∀ i p, plan scenarioResult !! i = Some p → itemIndex p = i) ∧
  (useMin (obj scenarioView) = false →
   ∀ i p, plan scenarioResult !! i = Some p →
     finalCols scenarioResult ≠ [] ∧
     colIndex p = (i mod length (finalCols scenarioResult))%nat).
Proof. exact (round_robin_assignment _ _ _ _ scenario_pass). Defined.

(** ** Heights *)

Lemma total_nonneg l : Forall (fun x => 0 ≤ x) l → 0 ≤ total l.
Proof. induction 1; simpl; lia. Qed.

Lemma tallest_ge cols k col : cols !! k = Some col → height col ≤ tallest cols.
Proof.
  revert k. induction cols as [|c cols IH]; intros k Hk; [done|].
  unfold tallest. cbn [fmap list_fmap foldr]. fold (tallest cols).
  destruct k as [|k]; simpl in Hk.
  - injection Hk as ->. lia.
  - specialize (IH k Hk). lia.
Qed.

Lemma tallest_nonneg cols : 0 ≤ tallest cols.
Proof.
  induction cols as [|c cols IH]; [done|].
  unfold tallest. cbn [fmap list_fmap foldr]. fold (tallest cols). lia.
Qed.

Lemma tallest_le cols b :
  0 ≤ b → (∀ k col, cols !! k = Some col → height col ≤ b) → tallest cols ≤ b.
Proof.
  intros Hb. induction cols as [|c cols IH]; intros H; [done|].
  unfold tallest. cbn [fmap list_fmap foldr]. fold (tallest cols).
  pose proof (H O c eq_refl). specialize (IH (fun k => H (S k))). lia.
Qed.

(** [maxHeight] never decreases, and it is at least the height a column has
    reached after any placement. *)
Lemma placeItems_finalMax g colW ws : ∀ its i cols mh,
  let r := placeItems g colW ws i its cols mh in
  mh ≤ finalMax r ∧
  Forall (fun p => heightBefore p + growth p ≤ finalMax r) (plan r).
Proof.
  induction its as [|item rest IH]; intros i cols mh.
  { simpl. split; [lia|constructor]. }
  destruct (nextCol g cols i) as [[k col]|] eqn:En.
  2:{ cbv zeta. simpl. rewrite En. simpl. split; [lia|constructor]. }
  cbv zeta. rewrite (placeItems_cons _ _ _ _ _ _ _ _ _ _ En).
  cbn [finalMax plan].
  match goal with
  | |- context [placeItems g colW ws (S i) rest ?cs ?m] =>
      destruct (IH (S i) cs m) as [Hm Hf]
  end.
  set (tg := if height col =? 0 then 0 else gutter g) in *.
  set (h' := height col + (rectHeight item + tg)) in *.
  split.
  - destruct (Z.ltb_spec mh h'); lia.
  - constructor; [|done]. unfold growth. cbn [heightBefore itemHeight topGutter].
    destruct (Z.ltb_spec mh h'); unfold h' in *; lia.
Qed.

(** When nothing the loop adds to a column is negative, [maxHeight] ends as
    the larger of its start and the tallest column. *)
Lemma placeItems_finalMax_tallest g colW ws : ∀ its i cols mh,
  0 ≤ gutter g →
  Forall (fun it => 0 ≤ rectHeight it) its →
  let r := placeItems g colW ws i its cols mh in
  tallest cols ≤ mh → finalMax r = Z.max mh (tallest (finalCols r)) ∧
  tallest cols ≤ tallest (finalCols r).
Proof.
  induction its as [|item rest IH]; intros i cols mh Hg Hnn.
  { simpl. intros Hle. lia. }
  apply Forall_cons in Hnn as [Hitem Hnn].
  destruct (nextCol g cols i) as [[k col]|] eqn:En.
  2:{ cbv zeta. simpl. rewrite En. simpl. intros Hle. lia. }
  pose proof (nextCol_lookup _ _ _ _ _ En) as Hk.
  cbv zeta. rewrite (placeItems_cons _ _ _ _ _ _ _ _ _ _ En).
  cbn [finalMax finalCols].
  set (tg := if height col =? 0 then 0 else gutter g) in *.
  assert (0 ≤ tg) as Htg by (unfold tg; destruct (height col =? 0); lia).
  set (h' := height col + (rectHeight item + tg)) in *.
  set (cols' := <[k:=mkColumn h' (index col)]> cols) in *.
  set (mh' := if mh <? h' then h' else mh) in *.
  intros Hle.
  assert (tallest cols' ≤ mh') as Hle'.
  { apply tallest_le.
    - pose proof (tallest_nonneg cols). unfold mh'. destruct (Z.ltb_spec mh h'); lia.
    - intros j cj Hj. unfold cols' in Hj.
      destruct (decide (k = j)) as [->|Hne].
      + rewrite list_lookup_insert_eq in Hj by (by eapply lookup_lt_Some).
        injection Hj as <-. cbn [height]. unfold mh'.
        destruct (Z.ltb_spec mh h'); lia.
      + rewrite list_lookup_insert_ne in Hj by done.
        pose proof (tallest_ge _ _ _ Hj). unfold mh'.
        destruct (Z.ltb_spec mh h'); lia. }
  destruct (IH (S i) cols' mh' Hg Hnn Hle') as [Hfm Hmono].
  assert (cols' !! k = Some (mkColumn h' (index col))) as Hk'.
  { unfold cols'. apply list_lookup_insert_eq. by eapply lookup_lt_Some. }
  pose proof (tallest_ge _ _ _ Hk') as Hh'. cbn [height] in Hh'.
  assert (tallest cols ≤ tallest cols') as Hstep.
  { apply tallest_le; [apply tallest_nonneg|]. intros j cj Hj.
    destruct (decide (k = j)) as [->|Hne].
    - rewrite Hk in Hj. injection Hj as <-. unfold h' in Hh'. lia.
    - apply (tallest_ge cols' j). unfold cols'.
      by rewrite list_lookup_insert_ne. }
  assert (mh' = Z.max mh h') as Emh
    by (unfold mh'; destruct (Z.ltb_spec mh h'); lia).
  split; [|lia]. rewrite Hfm. lia.
Qed.

Lemma tallest_colsFor n : tallest (colsFor n) = 0.
Proof.
  apply Z.le_antisymm; [|apply tallest_nonneg].
  apply tallest_le; [done|]. intros k col Hk.
  apply colsFor_lookup in Hk as ->. done.
Qed.

Lemma sameMeasures_heights its its' :
  sameMeasures its' its →
  Forall (fun it => 0 ≤ rectHeight it) its →
  Forall (fun it => 0 ≤ rectHeight it) its'.
Proof.
  induction 1 as [|a b ?? (_ & _ & Hh) _ IH]; intros Hf; [constructor|].
  apply Forall_cons in Hf as [Hb Hf]. constructor; [by rewrite Hh|auto].
Qed.

Lemma layoutPass_height g c r v' :
  layoutPass (mkView g (Some c)) = Ret r v' →
  (containerHeight <$> cont v') = Some (Some (Px (Fin (finalMax r + gutter g)))).
Proof.
  intros Hpass.
  destruct (layoutPass_Ret _ _ _ _ Hpass) as (first & rest & Hc & Er & Hf & ->).
  unfold passView. rewrite Hf. reflexivity.
Qed.

(** What the loop of a pass adds to a column is not negative when the
    gutter and the measured heights are not. *)
Lemma plan_nonneg g colW ws its n pre p post :
  0 ≤ gutter g →
  Forall (fun it => 0 ≤ rectHeight it) its →
  plan (placeItems g colW ws 0 its (colsFor n) 0) = pre ++ p :: post →
  0 ≤ itemHeight p ∧ 0 ≤ topGutter p ∧
  Forall (fun x => 0 ≤ x) (growth <$> pre).
Proof.
  intros Hg Hnn. revert p post.
  induction pre as [|x pre IH] using rev_ind; intros p post Hp.
  - destruct (placeItems_placement _ _ _ _ _ _ _ _ _ _ Hp)
      as (_ & item & _ & Hi & _ & Hh & _ & Htg & _).
    rewrite Forall_forall in Hnn.
    pose proof (Hnn item (list_elem_of_lookup_2 _ _ _ Hi)).
    split; [lia|]. split; [|constructor].
    rewrite Htg. destruct (heightBefore p =? 0); lia.
  - pose proof Hp as Hp'. rewrite <- app_assoc in Hp'. cbn [app] in Hp'.
    destruct (IH _ _ Hp') as (Hx1 & Hx2 & Hpre).
    destruct (placeItems_placement _ _ _ _ _ _ _ _ _ _ Hp)
      as (_ & item & _ & Hi & _ & Hh & _ & Htg & _).
    rewrite Forall_forall in Hnn.
    pose proof (Hnn item (list_elem_of_lookup_2 _ _ _ Hi)).
    split; [lia|]. split; [rewrite Htg; destruct (heightBefore p =? 0); lia|].
    rewrite fmap_app. apply Forall_app. split; [done|].
    constructor; [unfold growth; lia|constructor].
Qed.

(** X2. With a non-negative gutter and non-negative measured heights, the
    container height a pass sets is the height of the tallest column at the
    end of the pass plus the gutter. *)
Theorem container_height_is_tallest_column g c r v' :
  layoutPass (mkView g (Some c)) = Ret r v' →
  0 ≤ gutter g →
  Forall (fun it => 0 ≤ rectHeight it) (children c) →
  finalMax r = tallest (finalCols r) ∧
  (containerHeight <$> cont v')
  = Some (Some (Px (Fin (tallest (finalCols r) + gutter g)))).
Proof.
  intros Hpass Hg Hnn.
  destruct (layoutPass_loop _ _ _ _ Hpass)
    as (first & rest & its & Hc & Hm & Hf & Er).
  assert (finalMax r = tallest (finalCols r)) as E.
  { pose proof (placeItems_finalMax_tallest g
                  (rectWidth first + gutter g)
                  (centerOffset g (clientWidth c) (rectWidth first + gutter g))
                  its 0
                  (colsFor (numColsOf g (clientWidth c)
                              (rectWidth first + gutter g)))
                  0 Hg (sameMeasures_heights _ _ Hm Hnn)) as H.
    cbv zeta in H. rewrite <- Er, tallest_colsFor in H.
    destruct (H ltac:(lia)) as [H1 _].
    pose proof (tallest_nonneg (finalCols r)). lia. }
  split; [done|]. rewrite (layoutPass_height _ _ _ _ Hpass). by rewrite E.
Qed.

Lemma container_height_is_tallest_column_witness :
  finalMax scenarioResult = tallest (finalCols scenarioResult) ∧
  (containerHeight <$> cont scenarioAfter)
  = Some (Some (Px (Fin (tallest (finalCols scenarioResult)
                         + gutter (obj scenarioView))))).
Proof.
  apply (container_height_is_tallest_column (obj scenarioView)
           scenarioContainer scenarioResult scenarioAfter scenario_pass).
  - simpl. lia.
  - repeat constructor; simpl; lia.
Defined.

(** X3. With a non-negative gutter and non-negative measured heights, two
    items placed into the same column do not overlap: the later one starts
    at or below the lower edge of the earlier one, and at least a gutter
    below it when the earlier one has a positive height. *)
Theorem stacked_items_do_not_overlap g c r v' pre p mid q post :
  layoutPass (mkView g (Some c)) = Ret r v' →
  0 ≤ gutter g →
  Forall (fun it => 0 ≤ rectHeight it) (children c) →
  plan r = pre ++ p :: mid ++ q :: post →
  colIndex p = colIndex q →
  topPx p + itemHeight p ≤ topPx q ∧
  (0 < itemHeight p → topPx p + itemHeight p + gutter g ≤ topPx q).
Proof.
  intros Hpass Hg Hnn Hp Hcol.
  destruct (layoutPass_loop _ _ _ _ Hpass)
    as (first & rest & its & Hc & Hm & Hf & Er).
  pose proof (sameMeasures_heights _ _ Hm Hnn) as Hnn'.
  rewrite Er in Hp.
  assert (plan (placeItems g (rectWidth first + gutter g)
            (centerOffset g (clientWidth c) (rectWidth first + gutter g)) 0 its
            (colsFor (numColsOf g (clientWidth c) (rectWidth first + gutter g)))
            0) = (pre ++ p :: mid) ++ q :: post) as Hq.
  { rewrite Hp, <- app_assoc. done. }
  destruct (placeItems_wellStacked _ _ _ _ _ _ _ _ Hp) as [Hbp Hgp].
  destruct (placeItems_wellStacked _ _ _ _ _ _ _ _ Hq) as [Hbq Hgq].
  destruct (placeItems_placement _ _ _ _ _ _ _ _ _ _ Hp)
    as (_ & _ & _ & _ & _ & _ & _ & _ & Htp & _).
  destruct (placeItems_placement _ _ _ _ _ _ _ _ _ _ Hq)
    as (_ & _ & _ & _ & _ & _ & _ & _ & Htq & _).
  destruct (plan_nonneg _ _ _ _ _ _ _ _ Hg Hnn' Hp) as (Hhp & Htgp & Hpre).
  destruct (plan_nonneg _ _ _ _ _ _ _ _ Hg Hnn' Hq) as (Hhq & Htgq & Hall).
  (* the column of [q] before [q]: what was below [p], [p], and the rest *)
  unfold inColumn in Hbq. rewrite <- Hcol in Hbq.
  rewrite filter_app, filter_cons, decide_True in Hbq by done.
  rewrite fmap_app, fmap_cons in Hbq.
  assert (∀ l1 l2, total (l1 ++ l2) = total l1 + total l2) as Happ.
  { intros l1 l2. induction l1 as [|x l1 IH]; simpl; lia. }
  rewrite Happ in Hbq. cbn [total foldr] in Hbq.
  fold (total (growth <$> filter (fun x => colIndex x = colIndex p) mid)) in Hbq.
  assert (0 ≤ total (growth <$> filter (fun x => colIndex x = colIndex p) mid))
    as Hmid.
  { apply total_nonneg. rewrite fmap_app, fmap_cons in Hall.
    apply Forall_app in Hall as [_ Hall]. apply Forall_cons in Hall as [_ Hall].
    rewrite Forall_fmap in Hall |- *.
    eapply Forall_impl; [|by intros x Hx; exact Hx].
    apply Forall_forall. intros x Hx.
    apply list_elem_of_filter in Hx as [_ Hx].
    rewrite Forall_forall in Hall. by apply Hall. }
  assert (0 ≤ heightBefore p) as Hbp0.
  { rewrite Hbp. apply total_nonneg. rewrite Forall_fmap in Hpre |- *.
    apply Forall_forall. intros x Hx.
    apply list_elem_of_filter in Hx as [_ Hx].
    rewrite Forall_forall in Hpre. by apply Hpre. }
  unfold inColumn in Hbp. unfold growth at 2 in Hbq.
  split; [lia|]. intros Hpos.
  assert (heightBefore q ≠ 0) as Hne by lia.
  rewrite Hgq in Htq. destruct (Z.eqb_spec (heightBefore q) 0); [done|]. lia.
Qed.

Lemma stacked_items_do_not_overlap_witness :
  topPx (mkPlacement 0 0 0 0 (Fin 0) 0 50) + 50
    ≤ topPx (mkPlacement 3 0 50 10 (Fin 0) 60 60) ∧
  (0 < 50 →
   topPx (mkPlacement 0 0 0 0 (Fin 0) 0 50) + 50 + gutter (obj scenarioView)
     ≤ topPx (mkPlacement 3 0 50 10 (Fin 0) 60 60)).
Proof.
  apply (stacked_items_do_not_overlap (obj scenarioView) scenarioContainer
           scenarioResult scenarioAfter
           [] (mkPlacement 0 0 0 0 (Fin 0) 0 50)
           [mkPlacement 1 1 0 0 (Fin 100) 0 80;
            mkPlacement 2 2 0 0 (Fin 200) 0 30]
           (mkPlacement 3 0 50 10 (Fin 0) 60 60)
           [mkPlacement 4 1 80 10 (Fin 100) 90 40]
           scenario_pass).
  - simpl. lia.
  - repeat constructor; simpl; lia.
  - vm_compute. reflexivity.
  - reflexivity.
Defined.

(** X4. The lower edge of every item a pass places is at most [maxHeight]
    at the end of the pass: the container height the pass sets leaves at
    least a gutter below every item. *)
Theorem items_end_above_container_height g c r v' p :
  layoutPass (mkView g (Some c)) = Ret r v' →
  p ∈ plan r →
  topPx p + itemHeight p ≤ finalMax r ∧
  (containerHeight <$> cont v') = Some (Some (Px (Fin (finalMax r + gutter g)))).
Proof.
  intros Hpass Hin. split; [|exact (layoutPass_height _ _ _ _ Hpass)].
  destruct (layoutPass_loop _ _ _ _ Hpass)
    as (first & rest & its & Hc & Hm & Hf & Er).
  pose proof (placeItems_finalMax g (rectWidth first + gutter g)
                (centerOffset g (clientWidth c) (rectWidth first + gutter g))
                its 0
                (colsFor (numColsOf g (clientWidth c)
                            (rectWidth first + gutter g))) 0) as H.
  cbv zeta in H. rewrite <- Er in H. destruct H as [_ H].
  rewrite Forall_forall in H. specialize (H p Hin).
  apply In_plan_split in Hin as (pre & post & Hp). rewrite Er in Hp.
  destruct (placeItems_placement _ _ _ _ _ _ _ _ _ _ Hp)
    as (_ & _ & _ & _ & _ & _ & _ & _ & Htp & _).
  unfold growth in H. lia.
Qed.

Lemma items_end_above_container_height_witness :
  topPx (mkPlacement 4 1 80 10 (Fin 100) 90 40) + 40 ≤ finalMax scenarioResult ∧
  (containerHeight <$> cont scenarioAfter)
  = Some (Some (Px (Fin (finalMax scenarioResult + gutter (obj scenarioView))))).
Proof.
  apply (items_end_above_container_height (obj scenarioView)
           scenarioContainer scenarioResult scenarioAfter
           (mkPlacement 4 1 80 10 (Fin 100) 90 40) scenario_pass).
  vm_compute. repeat (first [apply list_elem_of_here | apply list_elem_of_further]).
Defined.

(** ** Columns inside the container *)

(** When the first item fits into the container and the cap allows a
    column, the count of columns is at least 1 and the columns, each
    followed by a gutter, take no more room than the container plus one
    gutter. *)
Lemma numColsOf_room g width colW :
  0 < colW → colW ≤ width + gutter g →
  (∀ m, maxColumns g = Some m → 1 ≤ m) →
  ∃ n, numColsOf g width colW = Fin n ∧ 1 ≤ n ∧ n * colW ≤ width + gutter g.
Proof.
  intros Hc Hfit Hm. unfold numColsOf, floor_div, or_else.
  assert ((colW =? 0) = false) as -> by lia.
  pose proof (Z.mul_div_le (width + gutter g) colW Hc) as Hle.
  assert (1 ≤ (width + gutter g) / colW) as Hq
    by (apply Z.div_le_lower_bound; lia).
  set (q := (width + gutter g) / colW) in *. cbn [truthy].
  assert ((q =? 0) = false) as -> by lia. cbn [negb].
  destruct (maxColumns g) as [m|] eqn:Em.
  - specialize (Hm m eq_refl). assert ((m =? 0) = false) as -> by lia.
    cbn [negb andb gt]. destruct (Z.ltb_spec m q).
    + exists m. split; [done|]. split; [done|]. nia.
    + exists q. split; [done|]. split; [done|]. lia.
  - exists q. split; [done|]. split; [done|]. lia.
Qed.

(** X5. Under round-robin, when the first item is no wider than the
    container (and the column width is positive and the cap, if any, at
    least 1), every item is placed at a left offset that is not negative and
    such that an item as wide as the first one ends inside the container,
    centred or not. *)
Theorem columns_inside_container g c r v' first rest p :
  layoutPass (mkView g (Some c)) = Ret r v' →
  children c = first :: rest →
  useMin g = false →
  0 < rectWidth first + gutter g →
  rectWidth first ≤ clientWidth c →
  (∀ m, maxColumns g = Some m → 1 ≤ m) →
  p ∈ plan r →
  ∃ l, leftPx p = Fin l ∧ 0 ≤ l ∧ l + rectWidth first ≤ clientWidth c.
Proof.
  intros Hpass Hc Hmin Hcw Hfit Hm Hin.
  set (colW := rectWidth first + gutter g) in *.
  destruct (numColsOf_room g (clientWidth c) colW Hcw ltac:(lia) Hm)
    as (n & En & Hn & Hroom).
  pose proof (layoutPass_left _ _ _ _ _ _ _ Hpass Hc Hin) as Hleft.
  cbv zeta in Hleft. fold colW in Hleft.
  (* the column of [p] is one of the [n] columns *)
  assert (Z.of_nat (colIndex p) < n) as Hk.
  { destruct (layoutPass_loop _ _ _ _ Hpass)
      as (first' & rest' & its & Hc' & _ & _ & Er).
    rewrite Hc in Hc'. injection Hc' as <- <-. fold colW in Er.
    apply In_plan_split in Hin as (pre & post & Hp). rewrite Er in Hp.
    destruct (placeItems_round_robin _ _ _ _ _ _ _ _ _ _ Hmin Hp) as [Hne Hk].
    rewrite En, length_colsFor_Fin in Hk.
    assert (Z.to_nat n ≠ O) by lia.
    pose proof (Nat.mod_upper_bound (0 + length pre) (Z.to_nat n) ltac:(done)).
    lia. }
  assert (wSpaceOf g (clientWidth c) colW
          = Fin (clientWidth c + - (n * colW) + gutter g)) as Ews.
  { unfold wSpaceOf. by rewrite En. }
  set (ws := clientWidth c + - (n * colW) + gutter g) in *.
  assert (0 ≤ ws) as Hws by (unfold ws; lia).
  unfold centerOffset in Hleft. rewrite Ews in Hleft.
  destruct (center g).
  - exists (Z.of_nat (colIndex p) * colW + ws / 2). split; [done|].
    pose proof (Z.div_pos ws 2 Hws ltac:(lia)).
    assert (ws / 2 ≤ ws) by (apply Z.div_le_upper_bound; lia).
    split; [nia|]. unfold ws, colW in *. nia.
  - exists (Z.of_nat (colIndex p) * colW + 0). split; [done|].
    split; [nia|]. unfold ws, colW in *. nia.
Qed.

Lemma columns_inside_container_witness :
  ∃ l, leftPx (mkPlacement 2 2 0 0 (Fin 200) 0 30) = Fin l ∧ 0 ≤ l ∧
       l + rectWidth (box 0 90 50) ≤ clientWidth scenarioContainer.
Proof.
  apply (columns_inside_container (obj scenarioView) scenarioContainer
           scenarioResult scenarioAfter (box 0 90 50)
           [box 1 90 80; box 2 90 30; box 3 90 60; box 4 90 40]
           (mkPlacement 2 2 0 0 (Fin 200) 0 30) scenario_pass).
  - reflexivity.
  - reflexivity.
  - simpl. lia.
  - simpl. lia.
  - simpl. intros m [=].
  - vm_compute.
    repeat (first [apply list_elem_of_here | apply list_elem_of_further]).
Defined.

(** ** What a pass leaves alone *)

Lemma styleItems_samePlace g : ∀ its s,
  Forall2 samePlace (styleItems g its s).1 its.
Proof.
  induction its as [|it rest IH]; intros s; simpl; [constructor|].
  destruct (bool_decide _); simpl; constructor; auto.
  - done.
  - unfold samePlace, baseStyle. by destruct (animate g).
Qed.

Lemma placeItems_sameBase g colW ws : ∀ its i cols mh,
  Forall2 sameBase (placedItems (placeItems g colW ws i its cols mh)) its.
Proof.
  induction its as [|item rest IH]; intros i cols mh; simpl; [constructor|].
  destruct (nextCol g cols i) as [[k col]|]; simpl.
  - constructor; [|apply IH]. unfold sameBase, setPosition.
    by destruct (useTransform g).
  - apply Forall2_same_length_lookup_2; [done|]. by intros ??? -> [= <-].
Qed.


(** ** What a pass writes *)

(** The item of every placement, as the loop leaves it. *)
Lemma placeItems_written g colW ws : ∀ its i cols mh pre p post,
  plan (placeItems g colW ws i its cols mh) = pre ++ p :: post →
  ∃ item,
    its !! length pre = Some item ∧
    placedItems (placeItems g colW ws i its cols mh) !! length pre
    = Some (setPosition g (leftPx p) (topPx p) item).
Proof.
  induction its as [|item rest IH]; intros i cols mh pre p post Hp.
  { simpl in Hp. by destruct pre. }
  destruct (nextCol g cols i) as [[k col]|] eqn:En.
  2:{ simpl in Hp. rewrite En in Hp. simpl in Hp. by destruct pre. }
  rewrite (placeItems_cons _ _ _ _ _ _ _ _ _ _ En) in Hp |- *.
  cbn [plan placedItems] in Hp |- *.
  destruct pre as [|p0 pre].
  - simpl in Hp. injection Hp as <- _. exists item. done.
  - simpl in Hp. injection Hp as _ Hp.
    destruct (IH _ _ _ _ _ _ Hp) as (item' & Hi & Hw).
    exists item'. done.
Qed.

(** X7. A pass positions every item by one technique only.  With
    [useTransform] it writes the pair of left and top offset to
    [style.transform] and leaves [style.top] and [style.left] as they were;
    without, it writes [style.top] and [style.left] and leaves
    [style.transform] as it was. *)
Theorem one_positioning_technique g c r v' i p :
  layoutPass (mkView g (Some c)) = Ret r v' →
  plan r !! i = Some p →
  ∃ a b c',
    children c !! i = Some a ∧ cont v' = Some c' ∧ children c' !! i = Some b ∧
    if useTransform g then
      transform (style b) = Some (Px (leftPx p), Px (Fin (topPx p))) ∧
      top_ (style b) = top_ (style a) ∧ left_ (style b) = left_ (style a)
    else
      top_ (style b) = Some (Px (Fin (topPx p))) ∧
      left_ (style b) = Some (Px (leftPx p)) ∧
      transform (style b) = transform (style a).
Proof.
  intros Hpass Hi.
  destruct (layoutPass_Ret _ _ _ _ Hpass) as (first & rest & Hc & Er & Hf & ->).
  assert (∃ c1, cont (styledView g c) = Some c1 ∧
                Forall2 samePlace (children c1) (children c)) as (c1 & Ec1 & Hsp).
  { unfold styledView. destruct (isReady g c); cbn [cont].
    - eexists. split; [reflexivity|]. apply styleItems_samePlace.
    - exists c. split; [done|].
      apply Forall2_same_length_lookup_2; [done|]. by intros ??? -> [= <-]. }
  unfold passLoop in Er. rewrite Ec1 in Er.
  cbn [fmap option_fmap option_map default from_option id] in Er.
  apply list_elem_of_split_length in Hi as (pre & post & Hp & ->).
  rewrite Er in Hp.
  destruct (placeItems_written _ _ _ _ _ _ _ _ _ _ Hp) as (item & Hit & Hw).
  rewrite <- Er in Hw.
  destruct (Forall2_lookup_l _ _ _ _ _ Hsp Hit) as (a & Ha & Hsame).
  exists a, (setPosition g (leftPx p) (topPx p) item).
  unfold passView. rewrite Ec1, Hf.
  cbn [cont default from_option id]. eexists. split; [done|].
  split; [reflexivity|]. cbn [children withContainerHeight withChildren].
  split; [exact Hw|]. destruct Hsame as (Ht & Hl & Htr).
  unfold setPosition. destruct (useTransform g); cbn; rewrite <- ?Ht, <- ?Hl, <- ?Htr; done.
Qed.

Lemma one_positioning_technique_witness :
  ∃ a b c',
    children scenarioContainer !! 3%nat = Some a ∧
    cont scenarioAfter = Some c' ∧ children c' !! 3%nat = Some b ∧
    if useTransform (obj scenarioView) then
      transform (style b) = Some (Px (Fin 0), Px (Fin 60)) ∧
      top_ (style b) = top_ (style a) ∧ left_ (style b) = left_ (style a)
    else
      top_ (style b) = Some (Px (Fin 60)) ∧
      left_ (style b) = Some (Px (Fin 0)) ∧
      transform (style b) = transform (style a).
Proof.
  apply (one_positioning_technique (obj scenarioView) scenarioContainer
           scenarioResult scenarioAfter 3
           (mkPlacement 3 0 50 10 (Fin 0) 60 60) scenario_pass).
  vm_compute. reflexivity.
Defined.

(** ** [initStyles] *)

(** X8. [initStyles] run again on the state it left changes nothing: the
    second call finds every item in [styledItems] and skips it (and when the
    first call raised, the second raises in the same state). *)
Theorem initStyles_idempotent v :
  again initStyles (initStyles v) = initStyles v.
Proof.
  destruct v as [g [c|]].
  - rewrite initStyles_some. cbn [again].
    destruct (styledView_shape g c) as (s1 & c1 & Ev & _ & _ & Hm & Hr).
    rewrite Ev, initStyles_some. f_equal.
    apply styledView_id. intros Hr2.
    rewrite (isReady_same g (withStyled s1 g) c c1) in Hr2;
      [|done|done|by apply Forall2_length in Hm].
    exact (Hr Hr2).
  - unfold initStyles. run. destruct (static g) eqn:Es.
    + rewrite ready_static by done. cbn. run. rewrite ready_static by done.
      reflexivity.
    + rewrite ready_null by done. cbn. run. rewrite ready_null by done.
      reflexivity.
Qed.

(** ** Degenerate column counts *)

(** X12. When [setup] makes no column (a count of 0 or less, as a negative
    gutter or cap gives) a round-robin pass over a container with items
    raises a [TypeError] at the first item: the state is the one
    [initStyles] left, no item is positioned and the container height is as
    before. *)
Theorem pass_without_columns_raises g c first rest n :
  children c = first :: rest →
  useMin g = false →
  numColsOf g (clientWidth c) (rectWidth first + gutter g) = Fin n →
  n ≤ 0 →
  positionItems (mkView g (Some c)) = Raise TypeError (styledView g c) ∧
  (containerHeight <$> cont (styledView g c)) = Some (containerHeight c) ∧
  ∃ c', cont (styledView g c) = Some c' ∧
        Forall2 samePlace (children c') (children c).
Proof.
  intros Hc Hmin En Hn.
  assert (colsFor (Fin n) = []) as Ecols.
  { unfold colsFor. by replace (Z.to_nat n) with O by lia. }
  destruct (styledView_shape g c) as (s1 & c1 & Ev & _ & Hh & Hm & _).
  split; [|split].
  - rewrite positionItems_layoutPass, (layoutPass_some _ _ _ _ Hc), En.
    cbv zeta.
    assert (children c1 ≠ []) as Hne.
    { intros E. rewrite E, Hc in Hm. by apply Forall2_nil_cons_inv in Hm. }
    assert (passLoop g c first
            = mkPlaced (children c1) [] [] 0 (Some TypeError)) as El.
    { unfold passLoop. rewrite Ev, En, Ecols.
      cbn [cont fmap option_fmap option_map default from_option id].
      destruct (children c1) as [|it its]; [done|].
      simpl. by rewrite nextCol_nil. }
    rewrite El. cbn [failure]. f_equal.
    unfold passView. rewrite Ev.
    cbn [obj cont default from_option id failure placedItems].
    by destruct c1.
  - by rewrite Ev, <- Hh.
  - unfold styledView. destruct (isReady g c); cbn [cont].
    + eexists. split; [reflexivity|]. apply styleItems_samePlace.
    + exists c. split; [done|].
      apply Forall2_same_length_lookup_2; [done|]. by intros ??? -> [= <-].
Qed.

Lemma pass_without_columns_raises_witness :
  positionItems negativeCap
  = Raise TypeError
      (styledView (obj negativeCap)
         (mkContainer "grid" 300 [box 0 90 40; box 1 90 50] None None)) ∧
  (containerHeight <$>
     cont (styledView (obj negativeCap)
             (mkContainer "grid" 300 [box 0 90 40; box 1 90 50] None None)))
  = Some None ∧
  ∃ c', cont (styledView (obj negativeCap)
                (mkContainer "grid" 300 [box 0 90 40; box 1 90 50] None None))
        = Some c' ∧
        Forall2 samePlace (children c') [box 0 90 40; box 1 90 50].
Proof.
  apply (pass_without_columns_raises (obj negativeCap)
           (mkContainer "grid" 300 [box 0 90 40; box 1 90 50] None None)
           (box 0 90 40) [box 1 90 50] (-1)).
  - reflexivity.
  - reflexivity.
  - reflexivity.
  - lia.
Defined.

(** X13. When the column width is 0 (the first item has no width and there
    is no gutter, or they cancel), the container has room (width plus gutter
    is positive) and no cap is configured, the count of columns is
    [Infinity]: the loop of [setup] that makes the columns does not end, and
    neither does the pass.  With a cap the count is the cap. *)
Theorem zero_column_width_never_returns g c first rest :
  children c = first :: rest →
  rectWidth first + gutter g = 0 →
  0 < clientWidth c + gutter g →
  (maxColumns g = None →
   setup (mkView g (Some c)) = Spin ∧
   positionItems (mkView g (Some c)) = Spin) ∧
  (∀ m, maxColumns g = Some m → m ≠ 0 →
   numColsOf g (clientWidth c) (rectWidth first + gutter g) = Fin m).
Proof.
  intros Hc Hcw Hw.
  assert (or_else (floor_div (clientWidth c + gutter g)
                     (rectWidth first + gutter g)) (Fin 1) = PInf) as Eraw.
  { rewrite Hcw. unfold floor_div. cbn.
    assert ((clientWidth c + gutter g =? 0) = false) as -> by lia.
    assert ((0 <? clientWidth c + gutter g) = true) as -> by lia. done. }
  split.
  - intros Hm.
    assert (numColsOf g (clientWidth c) (rectWidth first + gutter g) = PInf)
      as En by (unfold numColsOf; by rewrite Eraw, Hm).
    split.
    + by rewrite (setup_some _ _ _ _ Hc), En.
    + by rewrite positionItems_layoutPass, (layoutPass_some _ _ _ _ Hc), En.
  - intros m Hm Hm0. unfold numColsOf. rewrite Eraw, Hm. cbn.
    assert ((m =? 0) = false) as -> by lia. done.
Qed.

Lemma zero_column_width_never_returns_witness :
  (maxColumns (obj zeroWidth) = None →
   setup zeroWidth = Spin ∧ positionItems zeroWidth = Spin) ∧
  (∀ m, maxColumns (obj zeroWidth) = Some m → m ≠ 0 →
   numColsOf (obj zeroWidth) 300 (0 + 0) = Fin m).
Proof.
  apply (zero_column_width_never_returns (obj zeroWidth)
           (mkContainer "grid" 300 [box 0 0 40] None None) (box 0 0 40) []).
  - reflexivity.
  - reflexivity.
  - simpl. lia.
Defined.

(** * Further properties of the controller *)

(** A pass leaves the configuration of the object as it was. *)
Lemma layoutPass_config v :
  match layoutPass v with
  | Ret _ v' | Raise _ v' => withStyled (styledItems (obj v)) (obj v') = obj v
  | Spin => True
  end.
Proof.
  destruct v as [g [c|]].
  2:{ rewrite layoutPass_null. by destruct g. }
  destruct (children c) as [|first rest] eqn:Hc.
  { rewrite (layoutPass_no_items _ _ Hc). by destruct g. }
  rewrite (layoutPass_some _ _ _ _ Hc).
  pose proof (styledView_config g c) as H.
  destruct (numColsOf g (clientWidth c) (rectWidth first + gutter g));
    try done; cbv zeta; destruct (failure (passLoop g c first)); exact H.
Qed.

Lemma positionItemsW_onReady w :
  match positionItemsW w with
  | Ret _ w' | Raise _ w' => onReady (grid w') = onReady (grid w)
  | Spin => True
  end.
Proof.
  unfold positionItemsW, lift. rewrite positionItems_layoutPass.
  pose proof (layoutPass_config (view w)) as H.
  destruct (layoutPass (view w)) as [r v'|e v'|]; [| |done].
  all: destruct (commit_host v' w) as (_ & _ & _ & _ & _ & _ & _ & Hg).
  all: unfold note; run; cbn [grid withJournal]; rewrite Hg.
  all: change (grid w) with (obj (view w)); rewrite <- H; done.
Qed.

(** X9. When [listen] finds the object ready, [onReady] is called once,
    after the first pass and only if that pass returned: the journal gets
    the pass and then, if a callback is configured, the call; when the pass
    raises the exception leaves [listen] and the callback is not called. *)
Theorem onReady_once_after_first_pass w :
  ready (view w) = Ret true (view w) →
  match listen w with
  | Ret _ w' =>
      journal w'
      = journal w ++ (now w, LayoutDone)
                  :: (if onReady (grid w) then [(now w, ReadyCalled)] else [])
  | Raise e w' => journal w' = journal w ++ [(now w, LayoutRaised e)]
  | Spin => lift positionItems (listening w) = Spin
  end.
Proof.
  intros Hr. destruct (listen_ready w Hr) as [E _]. rewrite E. run.
  pose proof (positionItemsW_journal (listening w)) as Hj.
  pose proof (positionItemsW_onReady (listening w)) as Ho.
  destruct (positionItemsW (listening w)) as [[] w1|e w1|]; [| |done].
  - destruct Hj as (Hj & _ & _ & _ & Hn & _). unfold callOnReady.
    rewrite Ho. cbn [grid listening withListeners withCells].
    destruct (onReady (grid w)).
    + unfold note. run. cbn [journal withJournal]. rewrite Hj, Hn.
      cbn [journal now listening withListeners withCells].
      by rewrite <- app_assoc.
    + rewrite Hj. done.
  - by destruct Hj as (Hj & _).
Qed.

Lemma onReady_once_after_first_pass_witness :
  match listen constructedWorld with
  | Ret _ w' =>
      journal w'
      = journal constructedWorld
        ++ (now constructedWorld, LayoutDone)
           :: (if onReady (grid constructedWorld)
               then [(now constructedWorld, ReadyCalled)] else [])
  | Raise e w' =>
      journal w'
      = journal constructedWorld ++ [(now constructedWorld, LayoutRaised e)]
  | Spin => lift positionItems (listening constructedWorld) = Spin
  end.
Proof.
  apply (onReady_once_after_first_pass constructedWorld).
  vm_compute. reflexivity.
Defined.

(** ** The timeout of the resize listener *)

Lemma fire_relayout w cell h t :
  timers w = [mkTimer h t None (Relayout cell)] →
  fire (mkTimer h t None (Relayout cell)) w
  = guarded (relayout cell) (withTimers [] (withNow t w)).
Proof.
  intros Ht. unfold fire. run. f_equal. f_equal.
  cbn [rearm every handle timers withNow]. rewrite Ht, filter_cons.
  cbn [handle]. by rewrite decide_False by (intros Hx; by apply Hx).
Qed.

(** A world whose listener waits for a timeout that no timer will end. *)
Lemma burst_blocked cell h fuel : ∀ ts w,
  timers w = [] → listeners w = [cell] → cells w !! cell = Some (Some h) →
  burst fuel ts w = Some (Ret tt (withNow (List.last ts (now w)) w)).
Proof.
  induction ts as [|t ts IH]; intros w Ht Hl Hc.
  { cbn. by destruct w. }
  cbn [burst]. unfold resizeAt.
  rewrite advance_idle by (by rewrite Ht). cbn [andThen].
  rewrite (resize_pending cell h) by done. cbn [andThen].
  rewrite IH by done. cbn [now withNow]. do 2 f_equal.
  destruct ts as [|t' ts]; [done|].
  by rewrite (last_nonempty t' ts t (now w)).
Qed.

(** X10. When the pass raises inside the timeout of the resize listener,
    [timeout] is never reset: the variable keeps the handle of the timer that
    has fired, so every later resize notification finds a timeout "pending"
    and does nothing, and no pass runs again however many notifications
    arrive. *)
Theorem raising_pass_blocks_resize w cell h t e w1 :
  timers w = [mkTimer h t None (Relayout cell)] →
  listeners w = [cell] →
  cells w !! cell = Some (Some h) →
  lift positionItems (withTimers [] (withNow t w)) = Raise e w1 →
  ∃ w',
    fire (mkTimer h t None (Relayout cell)) w = Ret tt w' ∧
    cells w' !! cell = Some (Some h) ∧ timers w' = [] ∧
    layouts (journal w') = layouts (journal w) ++ [t] ∧
    ∀ fuel ts H,
      ∃ w'', andThen (burst fuel ts w') (advance fuel H) = Some (Ret tt w'') ∧
             journal w'' = journal w'.
Proof.
  intros Ht Hl Hc Hp.
  pose proof (lift_sameHost positionItems (withTimers [] (withNow t w))) as Hs.
  rewrite Hp in Hs. destruct Hs as (Hn & Hts & _ & Hls & Hcs & Hj & _).
  cbn [now timers listeners cells journal withTimers withNow] in *.
  rewrite (fire_relayout _ _ _ _ Ht). unfold guarded, relayout. run.
  unfold positionItemsW. rewrite Hp. unfold note. run.
  eexists. split; [reflexivity|].
  cbn [cells timers journal withJournal].
  split; [by rewrite Hcs|]. split; [done|]. split.
  { rewrite !layouts_app, Hj, Hn. unfold layouts at 2 3. cbn.
    by rewrite app_nil_r. }
  intros fuel ts H.
  set (w' := withJournal _ _).
  assert (timers w' = []) as Ht' by (cbn; exact Hts).
  assert (listeners w' = [cell]) as Hl' by (cbn; by rewrite Hls).
  assert (cells w' !! cell = Some (Some h)) as Hc' by (cbn; by rewrite Hcs).
  rewrite (burst_blocked cell h fuel ts w' Ht' Hl' Hc'). cbn [andThen].
  rewrite advance_idle by (cbn [timers withNow]; by rewrite Ht').
  eexists. split; [reflexivity|]. done.
Qed.

Lemma raising_pass_blocks_resize_witness :
  ∃ w',
    fire (mkTimer 1 210 None (Relayout O)) emptiedWorld = Ret tt w' ∧
    cells w' !! O = Some (Some 1%nat) ∧ timers w' = [] ∧
    layouts (journal w') = layouts (journal emptiedWorld) ++ [210] ∧
    ∀ fuel ts H,
      ∃ w'', andThen (burst fuel ts w') (advance fuel H) = Some (Ret tt w'') ∧
             journal w'' = journal w'.
Proof.
  eapply (raising_pass_blocks_resize emptiedWorld O 1 210 TypeError).
  - vm_compute. reflexivity.
  - vm_compute. reflexivity.
  - vm_compute. reflexivity.
  - vm_compute. reflexivity.
Defined.

(** X11. When the pass in the timeout returns, [timeout] is reset: the next
    resize notification, at or after the time the timeout was due, finds the
    pass done and arms a new timeout 200ms after itself. *)
Theorem resize_after_pass_arms_again w cell h t w1 t2 fuel :
  timers w = [mkTimer h t None (Relayout cell)] →
  listeners w = [cell] →
  cells w !! cell = Some (Some h) →
  lift positionItems (withTimers [] (withNow t w)) = Ret tt w1 →
  t ≤ t2 →
  ∃ w',
    resizeAt (S fuel) t2 w = Some (Ret tt w') ∧
    timers w' = [mkTimer (nextHandle w) (t2 + 200) None (Relayout cell)] ∧
    cells w' !! cell = Some (Some (nextHandle w)) ∧
    layouts (journal w') = layouts (journal w) ++ [t].
Proof.
  intros Ht Hl Hc Hp Hle.
  pose proof (lift_sameHost positionItems (withTimers [] (withNow t w))) as Hs.
  rewrite Hp in Hs. destruct Hs as (Hn & Hts & Hh & Hls & Hcs & Hj & _).
  cbn [now timers listeners cells journal nextHandle withTimers withNow] in *.
  unfold resizeAt. cbn [advance].
  assert (nextDue t2 (timers w) = Some (mkTimer h t None (Relayout cell))) as ->.
  { rewrite Ht. unfold nextDue. rewrite filter_cons. cbn [due].
    by rewrite decide_True by lia. }
  rewrite (fire_relayout _ _ _ _ Ht). unfold guarded, relayout. run.
  unfold positionItemsW. rewrite Hp. unfold note, setCell. run.
  set (w2 := withCells _ _).
  assert (timers w2 = []) as Ht2 by done.
  rewrite advance_idle by (by rewrite Ht2). cbn [andThen].
  assert (cells (withNow t2 w2) !! cell = Some None) as Hc2.
  { cbn. rewrite Hcs. apply list_lookup_insert_eq. by eapply lookup_lt_Some. }
  rewrite (resize_first cell (withNow t2 w2)); [|done|by cbn; rewrite Hls|done].
  eexists. split; [reflexivity|].
  cbn [timers cells journal nextHandle now armed withCells withNextHandle
       withTimers withNow withJournal w2].
  rewrite Hh. split; [done|]. split.
  { apply list_lookup_insert_eq. rewrite length_insert, Hcs.
    by eapply lookup_lt_Some. }
  rewrite layouts_app, Hj, Hn. done.
Qed.

Lemma resize_after_pass_arms_again_witness :
  ∃ w',
    resizeAt 2 500 pendingWorld = Some (Ret tt w') ∧
    timers w' = [mkTimer (nextHandle pendingWorld) (500 + 200) None
                         (Relayout O)] ∧
    cells w' !! O = Some (Some (nextHandle pendingWorld)) ∧
    layouts (journal w') = layouts (journal pendingWorld) ++ [210].
Proof.
  eapply (resize_after_pass_arms_again pendingWorld O 1 210 _ 500 1).
  - vm_compute. reflexivity.
  - vm_compute. reflexivity.
  - vm_compute. reflexivity.
  - vm_compute. reflexivity.
  - lia.
Defined.

(** ** Construction *)

(** X14. Constructing the object with a selector that matches no element
    raises a [TypeError] once the configuration has passed validation,
    whatever [static] is: [initStyles] reads the children or the style of
    [null].  Nothing is scheduled or registered. *)
Theorem constructor_unresolved_selector_raises config w s :
  checkParams config w = Ret tt w →
  Config.container config = Some (Selector s) →
  querySelector w s = None →
  ∃ w',
    constructor config w = Raise TypeError w' ∧
    container (grid w') = None ∧ nodes w' = nodes w ∧
    timers w' = timers w ∧ listeners w' = listeners w.
Proof.
  intros Hck Hcont Hq. unfold constructor. run. rewrite Hck, Hcont, Hq.
  cbn [fst snd]. unfold lift.
  match goal with
  | |- context [initStyles (view ?w0)] =>
      change (view w0) with (mkView (grid w0) None); set (w1 := w0)
  end.
  assert (initStyles (mkView (grid w1) None)
          = Raise TypeError (mkView (grid w1) None)) as ->.
  { unfold initStyles. run. destruct (static (grid w1)) eqn:Es.
    - by rewrite ready_static.
    - by rewrite ready_null. }
  eexists. split; [reflexivity|]. done.
Qed.

Lemma constructor_unresolved_selector_raises_witness :
  ∃ w',
    constructor strayConfig (page twoOfFive byClass) = Raise TypeError w' ∧
    container (grid w') = None ∧ nodes w' = nodes (page twoOfFive byClass) ∧
    timers w' = timers (page twoOfFive byClass) ∧
    listeners w' = listeners (page twoOfFive byClass).
Proof.
  apply (constructor_unresolved_selector_raises strayConfig
           (page twoOfFive byClass) "#missing").
  - reflexivity.
  - reflexivity.
  - reflexivity.
Defined.

(** On items that are not styled yet and are all different elements, the
    loop of [initStyles] gives every one its base style and records it. *)
Lemma styleItems_fresh g : ∀ its s,
  NoDup (ident <$> its) →
  Forall (fun it => ident it ∉ s) its →
  styleItems g its s
  = (baseStyle g <$> its, s ∪ list_to_set (ident <$> its)).
Proof.
  induction its as [|it rest IH]; intros s Hnd Hf.
  { simpl. f_equal. by rewrite (right_id_L ∅ (∪)). }
  rewrite fmap_cons in Hnd. apply NoDup_cons in Hnd as [Hnotin Hnd].
  apply Forall_cons in Hf as [Hit Hf]. simpl.
  rewrite bool_decide_eq_false_2 by done.
  rewrite IH; [|done|].
  - simpl. f_equal. by rewrite (assoc_L (∪)).
  - rewrite Forall_forall in Hf |- *. intros x Hx.
    specialize (Hf x Hx). intros [?|Hin%elem_of_singleton]%elem_of_union.
    + done.
    + apply Hnotin. rewrite <- Hin. apply list_elem_of_fmap. by exists x.
Qed.

(** The end of the constructor, once the fields are assigned: [initStyles]
    on a container that is there and ready. *)
Lemma initStyles_first_time g' w r c :
  container g' = Some r →
  styledItems g' = ∅ →
  nodes w !! r = Some c →
  isReady g' c = true →
  NoDup (ident <$> children c) →
  ∃ w' c',
    lift initStyles (withGrid g' w) = Ret tt w' ∧
    nodes w' !! r = Some c' ∧
    containerPosition c' = Some "relative" ∧
    containerHeight c' = containerHeight c ∧
    children c' = baseStyle (grid w') <$> children c ∧
    Forall (fun it => position (style it) = Some "absolute") (children c') ∧
    Forall2 samePlace (children c') (children c) ∧
    styledItems (grid w') = list_to_set (ident <$> children c).
Proof.
  intros Hr Hs Hn Hready Hnd. unfold lift.
  assert (view (withGrid g' w) = mkView g' (Some c)) as ->.
  { unfold view. cbn [grid withGrid nodes]. rewrite Hr. cbn. by rewrite Hn. }
  rewrite initStyles_some. unfold styledView. rewrite Hready.
  rewrite styleItems_fresh; [|done|].
  2:{ apply Forall_forall. intros x _. rewrite Hs. apply not_elem_of_empty. }
  cbn [fst snd]. unfold commit.
  cbn [obj cont grid withGrid container withStyled nodes withNodes].
  rewrite Hr. eexists _, _. split; [reflexivity|].
  cbn [nodes grid styledItems withNodes withGrid withStyled].
  rewrite lookup_insert_eq.
  split; [reflexivity|]. split; [reflexivity|]. split; [reflexivity|].
  split; [reflexivity|]. split; [|split].
  - cbn [children withChildren]. apply Forall_fmap, Forall_forall.
    intros x _. unfold baseStyle. cbn. by destruct (animate g').
  - cbn [children withChildren]. apply Forall2_fmap_l.
    apply Forall2_same_length_lookup_2; [done|]. intros i a b Ha Hb.
    rewrite Ha in Hb. injection Hb as <-. unfold samePlace, baseStyle. cbn.
    by destruct (animate g').
  - rewrite Hs. apply (left_id_L ∅ (∪)).
Qed.

(** X15. Constructing the object on a container that resolves and is ready
    (under [static], or with at least [items] children) and whose children
    are all different elements styles it at once: the container becomes
    [position: relative], every child gets [position: absolute] (and the
    transition when [animate] is on), all children are in [styledItems], and
    nothing is positioned yet. *)
Theorem constructor_styles_ready_container config w r c :
  checkParams config w = Ret tt w →
  match Config.container config with
  | Some (Element r') => r' = r
  | Some (Selector s) => querySelector w s = Some r
  | None => False
  end →
  nodes w !! r = Some c →
  (Config.static config = true ∨
   ∃ n, Config.items config = Some n ∧ n ≤ Z.of_nat (length (children c))) →
  NoDup (ident <$> children c) →
  ∃ w' c',
    constructor config w = Ret tt w' ∧
    nodes w' !! r = Some c' ∧
    containerPosition c' = Some "relative" ∧
    containerHeight c' = containerHeight c ∧
    children c' = baseStyle (grid w') <$> children c ∧
    Forall (fun it => position (style it) = Some "absolute") (children c') ∧
    Forall2 samePlace (children c') (children c) ∧
    styledItems (grid w') = list_to_set (ident <$> children c).
Proof.
  intros Hck Hres Hn Hready Hnd.
  assert (∀ cls,
    isReady (mkGrid (Some r) cls (Config.static config)
               (Config.items config) (default 0 (Config.gutter config))
               (orFalse (Config.maxColumns config)) (Config.useMin config)
               (Config.useTransform config) (Config.animate config)
               (Config.center config) (Config.onReady config) ∅) c = true)
    as Hr.
  { intros cls. unfold isReady. cbn [static size].
    destruct Hready as [->|(n & -> & Hle)]; [done|].
    destruct (Config.static config); [done|]. by apply bool_decide_eq_true. }
  unfold constructor. run. rewrite Hck.
  destruct (Config.container config) as [[r'|s]|]; [| |done].
  - subst r'. eapply initStyles_first_time; done.
  - rewrite Hres. eapply initStyles_first_time; done.
Qed.

Lemma constructor_styles_ready_container_witness :
  ∃ w' c',
    constructor readyConfig (page twoOfFive byClass) = Ret tt w' ∧
    nodes w' !! O = Some c' ∧
    containerPosition c' = Some "relative" ∧
    containerHeight c' = containerHeight twoBoxes ∧
    children c' = baseStyle (grid w') <$> children twoBoxes ∧
    Forall (fun it => position (style it) = Some "absolute") (children c') ∧
    Forall2 samePlace (children c') (children twoBoxes) ∧
    styledItems (grid w') = list_to_set (ident <$> children twoBoxes).
Proof.
  apply (constructor_styles_ready_container readyConfig
           (page twoOfFive byClass) O twoBoxes).
  - reflexivity.
  - reflexivity.
  - reflexivity.
  - right. exists 2. split; [reflexivity|]. simpl. lia.
  - apply (bool_decide_unpack _). vm_compute. exact I.
Defined.

(** * Further properties: centring and late items *)



(** The loop of [initStyles], item by item, when the children are all
    different elements. *)
Lemma styleItems_lookup g : ∀ its s i a,
  NoDup (ident <$> its) →
  its !! i = Some a →
  (styleItems g its s).1 !! i
  = Some (if bool_decide (ident a ∈ s) then a else baseStyle g a).
Proof.
  induction its as [|it rest IH]; intros s i a Hnd Hi; [done|].
  rewrite fmap_cons in Hnd. apply NoDup_cons in Hnd as [Hnotin Hnd].
  destruct i as [|i]; simpl in Hi.
  - injection Hi as ->. simpl. by destruct (bool_decide (ident a ∈ s)).
  - assert (ident a ≠ ident it) as Hne.
    { intros E. apply Hnotin. rewrite <- E. apply list_elem_of_fmap.
      exists a. split; [done|]. by eapply list_elem_of_lookup_2. }
    simpl. destruct (bool_decide (ident it ∈ s)); simpl.
    + by apply IH.
    + rewrite (IH _ _ _ Hnd Hi). f_equal.
      destruct (decide (ident a ∈ s)) as [Hin|Hin].
      * rewrite (bool_decide_eq_true_2 (ident a ∈ s ∪ {[ident it]}))
          by (by apply elem_of_union_l).
        by rewrite (bool_decide_eq_true_2 (ident a ∈ s)).
      * rewrite (bool_decide_eq_false_2 (ident a ∈ s ∪ {[ident it]})).
        -- by rewrite (bool_decide_eq_false_2 (ident a ∈ s)).
        -- intros [?|Hx%elem_of_singleton]%elem_of_union; done.
Qed.

(** X17. A pass on a ready container whose children are all different
    elements gives the base style to the items that arrived since the last
    call of [initStyles]: a child that is not in [styledItems] gets
    [position: absolute], a child that is in it keeps the [position] it has,
    and after the pass every child is in [styledItems]. *)
Theorem pass_styles_late_items g c r v' i a :
  layoutPass (mkView g (Some c)) = Ret r v' →
  isReady g c = true →
  NoDup (ident <$> children c) →
  children c !! i = Some a →
  ∃ b c',
    cont v' = Some c' ∧ children c' !! i = Some b ∧
    ident b = ident a ∧ ident b ∈ styledItems (obj v') ∧
    position (style b)
    = (if bool_decide (ident a ∈ styledItems g) then position (style a)
       else Some "absolute").
Proof.
  intros Hpass Hready Hnd Ha.
  destruct (layoutPass_Ret _ _ _ _ Hpass) as (first & rest & Hc & Er & Hf & ->).
  set (st := styleItems g (children c) (styledItems g)).
  assert (styledView g c
          = mkView (withStyled st.2 g)
                   (Some (withChildren st.1
                            (withContainerPosition "relative" c)))) as Ev.
  { unfold styledView. by rewrite Hready. }
  unfold passLoop in Er. rewrite Ev in Er.
  cbn [cont fmap option_fmap option_map default from_option id children
       withChildren] in Er.
  pose proof (styleItems_lookup g _ (styledItems g) _ _ Hnd Ha) as Hs.
  fold st in Hs.
  pose proof (placeItems_sameBase g (rectWidth first + gutter g)
                (centerOffset g (clientWidth c) (rectWidth first + gutter g))
                st.1 0
                (colsFor (numColsOf g (clientWidth c)
                            (rectWidth first + gutter g))) 0) as Hb.
  pose proof (placeItems_measures g (rectWidth first + gutter g)
                (centerOffset g (clientWidth c) (rectWidth first + gutter g))
                st.1 0
                (colsFor (numColsOf g (clientWidth c)
                            (rectWidth first + gutter g))) 0) as Hm.
  rewrite <- Er in Hb, Hm.
  destruct (Forall2_lookup_r _ _ _ _ _ Hb Hs) as (b & Hbi & Hpos & _).
  destruct (Forall2_lookup_r _ _ _ _ _ Hm Hs) as (b' & Hbi' & Hid & _).
  rewrite Hbi in Hbi'. injection Hbi' as <-.
  exists b. unfold passView. rewrite Ev, Hf.
  cbn [obj cont default from_option id]. eexists. split; [reflexivity|].
  cbn [children withContainerHeight withChildren].
  split; [exact Hbi|].
  assert (ident b = ident a) as Eid.
  { rewrite Hid. by destruct (bool_decide (ident a ∈ styledItems g)). }
  split; [done|]. split.
  - cbn [styledItems withStyled]. rewrite Eid.
    destruct (styleItems_styled g (children c) (styledItems g)) as [_ Hall].
    fold st in Hall. rewrite Forall_forall in Hall.
    pose proof (Hall _ (list_elem_of_lookup_2 _ _ _ Hs)) as Hin.
    by destruct (bool_decide (ident a ∈ styledItems g)).
  - rewrite Hpos. destruct (bool_decide (ident a ∈ styledItems g)); [done|].
    unfold baseStyle. cbn. by destruct (animate g).
Qed.

Lemma pass_styles_late_items_witness :
  ∃ b c',
    cont scenarioAfter = Some c' ∧ children c' !! 4%nat = Some b ∧
    ident b = ident (box 4 90 40) ∧ ident b ∈ styledItems (obj scenarioAfter) ∧
    position (style b)
    = (if bool_decide (ident (box 4 90 40) ∈ styledItems (obj scenarioView))
       then position (style (box 4 90 40))
       else Some "absolute").
Proof.
  apply (pass_styles_late_items (obj scenarioView) scenarioContainer
           scenarioResult scenarioAfter 4 (box 4 90 40) scenario_pass).
  - vm_compute. reflexivity.
  - apply (bool_decide_unpack _). vm_compute. exact I.
  - reflexivity.
Defined.
